(** * Weather clock: periodic jobs, change filter and weather field extractor

    A shallow embedding of [app/app copy.c], [app/weather copy.c] and
    [app/page/main_page copy.c].  C strings are [string]s (the characters
    before the terminating NUL), C [int]s are [Z], C [float]s and [double]s
    are IEEE data with the bits of their NaNs, and every job is a function
    from its static snapshot
    and the answer of its external collaborator to the new snapshot and the
    list of calls it made, in program order. *)

From Stdlib Require Import ZArith QArith List String Ascii Bool Lia.
From Stdlib Require Import SpecFloat.
Import ListNotations.

Local Open Scope string_scope.
Local Open Scope Z_scope.

(** ** The C library functions the sources call *)

Module CLib.

(** The double-quote character (ASCII 34). *)
Definition dquote : ascii := ascii_of_nat 34.

(** [qq s] is [s] with each apostrophe standing for a double quote, so
    that [qq "'now':"] is the six-character C literal searched for by
    the extractor: quote, n, o, w, quote, colon. *)
Fixpoint qq (s : string) : string :=
  match s with
  | EmptyString => EmptyString
  | String c t => String (if Ascii.eqb c "'" then dquote else c) (qq t)
  end.

Definition code (c : ascii) : Z := Z.of_nat (nat_of_ascii c).

Definition isspace (c : ascii) : bool :=
  (code c =? 32) || ((9 <=? code c) && (code c <=? 13)).

Definition isdigit (c : ascii) : bool :=
  (48 <=? code c) && (code c <=? 57).

Definition digit_val (c : ascii) : Z := code c - 48.

Definition tolower (c : ascii) : ascii :=
  if (65 <=? code c) && (code c <=? 90)
  then ascii_of_nat (nat_of_ascii c + 32) else c.

(** [strstr hay needle]: the tail of [hay] that starts at the first
    occurrence of [needle]; [None] is the NULL pointer. *)
Fixpoint strstr (hay needle : string) : option string :=
  if String.prefix needle hay then Some hay
  else match hay with
       | EmptyString => None
       | String _ t => strstr t needle
       end.

(** *** sscanf

    A format is a list of directives.  Only the directives the sources
    use are modelled: runs of ordinary characters, white space, the
    bounded scan set [%N[^...]] and [%d]. *)

Inductive directive : Type :=
| d_lit (s : string)
| d_space
| d_scanset_not (width : nat) (excluded : list ascii)
| d_int.

Inductive scan_val : Type :=
| v_str (s : string)
| v_int (n : Z).

Inductive scan_failure : Type :=
| input_failure
| matching_failure.

Fixpoint skip_space (s : string) : string :=
  match s with
  | String c t => if isspace c then skip_space t else s
  | EmptyString => EmptyString
  end.

(** Ordinary characters must match one by one; running out of input is
    an input failure, a different character a matching failure. *)
Fixpoint match_lit (l s : string) : string + scan_failure :=
  match l with
  | EmptyString => inl s
  | String a l' =>
      match s with
      | EmptyString => inr input_failure
      | String b s' =>
          if Ascii.eqb a b then match_lit l' s' else inr matching_failure
      end
  end.

Definition in_set (c : ascii) (set : list ascii) : bool :=
  existsb (Ascii.eqb c) set.

(** At most [width] leading characters outside [excluded], and the rest. *)
Fixpoint take_not (width : nat) (excluded : list ascii) (s : string)
  : string * string :=
  match width, s with
  | S w, String c t =>
      if in_set c excluded then (EmptyString, s)
      else let '(got, rest) := take_not w excluded t in (String c got, rest)
  | _, _ => (EmptyString, s)
  end.

Fixpoint take_digits (s : string) : string * string :=
  match s with
  | String c t =>
      if isdigit c
      then let '(got, rest) := take_digits t in (String c got, rest)
      else (EmptyString, s)
  | EmptyString => (EmptyString, EmptyString)
  end.

(** Value of a digit string read left to right, starting from [acc]. *)
Fixpoint decimal (acc : Z) (ds : string) : Z :=
  match ds with
  | EmptyString => acc
  | String c t => decimal (10 * acc + digit_val c) t
  end.

(** An optional sign: [true] for a minus sign. *)
Definition take_sign (s : string) : bool * string :=
  match s with
  | String c t =>
      if Ascii.eqb c "-" then (true, t)
      else if Ascii.eqb c "+" then (false, t)
      else (false, s)
  | EmptyString => (false, s)
  end.

(** The value [strtol] returns for the mathematical value [v] of the
    digits: [long] has 64 bits and a value out of its range is replaced by
    the nearest bound. *)
Definition LONG_MIN : Z := - 2 ^ 63.
Definition LONG_MAX : Z := 2 ^ 63 - 1.
Definition strtol_value (v : Z) : Z := Z.max LONG_MIN (Z.min LONG_MAX v).

(** Conversion to the 32-bit [int]: the low 32 bits, in two's complement. *)
Definition INT_MIN : Z := - 2 ^ 31.
Definition INT_MAX : Z := 2 ^ 31 - 1.
Definition to_int (v : Z) : Z := (v + 2 ^ 31) mod 2 ^ 32 - 2 ^ 31.

(** [%d]: white space is skipped, then an optionally signed run of
    decimal digits is read, converted as [strtol] does and stored in an
    [int].  C leaves open what is stored when the number is not a value
    of [int]; the bounds of [long] and the cut to 32 bits are those of
    the GNU library on a machine with a [long] of 64 bits. *)
Definition scan_int (s : string) : (Z * string) + scan_failure :=
  match skip_space s with
  | EmptyString => inr input_failure
  | s1 =>
      let '(neg, s2) := take_sign s1 in
      match take_digits s2 with
      | (EmptyString, _) => inr matching_failure
      | (ds, rest) =>
          inl (to_int (strtol_value
                         (if neg then - decimal 0 ds else decimal 0 ds)),
               rest)
      end
  end.

Definition scan_set_not (width : nat) (excluded : list ascii) (s : string)
  : (string * string) + scan_failure :=
  match s with
  | EmptyString => inr input_failure
  | _ =>
      match take_not width excluded s with
      | (EmptyString, _) => inr matching_failure
      | (got, rest) => inl (got, rest)
      end
  end.

(** Runs the directives in order; scanning stops at the first failure.
    The result is what was assigned so far, in order, and the failure
    that stopped the scan, if any. *)
Fixpoint scan (fmt : list directive) (s : string) (stored : list scan_val)
  : list scan_val * option scan_failure :=
  match fmt with
  | [] => (stored, None)
  | d_lit l :: fmt' =>
      match match_lit l s with
      | inl rest => scan fmt' rest stored
      | inr f => (stored, Some f)
      end
  | d_space :: fmt' => scan fmt' (skip_space s) stored
  | d_scanset_not w ex :: fmt' =>
      match scan_set_not w ex s with
      | inl (got, rest) => scan fmt' rest (stored ++ [v_str got])
      | inr f => (stored, Some f)
      end
  | d_int :: fmt' =>
      match scan_int s with
      | inl (n, rest) => scan fmt' rest (stored ++ [v_int n])
      | inr f => (stored, Some f)
      end
  end.

Definition EOF : Z := -1.

(** [sscanf s fmt]: the return value and the assigned values.  [EOF] is
    returned when the input ends before any conversion was made. *)
Definition sscanf (s : string) (fmt : list directive) : Z * list scan_val :=
  match scan fmt s [] with
  | ([], Some input_failure) => (EOF, [])
  | (stored, _) => (Z.of_nat (List.length stored), stored)
  end.

(** *** Floating point and atof

    [double] is IEEE binary64 and [float] is IEEE binary32.  A datum is a
    signed zero, a signed infinity, a finite number [m * 2 ^ e], or a NaN
    with its sign and the bits of its fraction field, so that two data
    are equal exactly when their bit patterns are. *)

Inductive ieee_float : Type :=
| F_zero (s : bool)
| F_infinity (s : bool)
| F_nan (s : bool) (fraction : positive)
| F_finite (s : bool) (m : positive) (e : Z).

Definition double : Type := ieee_float.
Definition float : Type := ieee_float.

(** The fraction field of the default quiet NaN of each format. *)
Definition QNAN_DOUBLE : positive := 2 ^ 51.
Definition QNAN_FLOAT : positive := 2 ^ 22.

(** The datum without the bits of its NaN, as the arithmetic sees it. *)
Definition to_spec (x : ieee_float) : spec_float :=
  match x with
  | F_zero s => S754_zero s
  | F_infinity s => S754_infinity s
  | F_nan _ _ => S754_nan
  | F_finite s m e => S754_finite s m e
  end.

(** A [float] constant; the NaN is the default quiet one. *)
Definition of_spec (x : spec_float) : ieee_float :=
  match x with
  | S754_zero s => F_zero s
  | S754_infinity s => F_infinity s
  | S754_nan => F_nan false QNAN_FLOAT
  | S754_finite s m e => F_finite s m e
  end.

Coercion of_spec : spec_float >-> ieee_float.

(** The result [x] of a rounding, with the sign [neg]. *)
Definition with_sign (neg : bool) (x : spec_float) : ieee_float :=
  match x with
  | S754_zero _ => F_zero neg
  | S754_infinity _ => F_infinity neg
  | S754_finite _ p e => F_finite neg p e
  | S754_nan => F_nan neg QNAN_DOUBLE
  end.

(** The sign flipped, as unary minus does. *)
Definition fopp (x : ieee_float) : ieee_float :=
  match x with
  | F_zero s => F_zero (negb s)
  | F_infinity s => F_infinity (negb s)
  | F_nan s f => F_nan (negb s) f
  | F_finite s m e => F_finite (negb s) m e
  end.

Definition is_nan (x : ieee_float) : bool :=
  match x with
  | F_nan _ _ => true
  | _ => false
  end.

(** The double nearest to [m * 2 ^ e] for [0 < m], ties to even. *)
Definition to_double (neg : bool) (m e : Z) : double :=
  with_sign neg (binary_normalize 53 1024 m e false).

(** The double nearest to [m * 10 ^ e10] for [0 <= m], ties to even. *)
Definition decimal_to_double (neg : bool) (m e10 : Z) : double :=
  if m =? 0 then F_zero neg
  else if 0 <=? e10 then to_double neg (m * 10 ^ e10) 0
  else
    let '(mq, eq, lq) := SFdiv_core_binary 53 1024 m 0 (10 ^ (- e10)) 0 in
    with_sign neg (binary_round_aux 53 1024 neg mq eq lq).

(** The double nearest to [m * 2 ^ e2] for [0 <= m]. *)
Definition binary_to_double (neg : bool) (m e2 : Z) : double :=
  if m =? 0 then F_zero neg else to_double neg m e2.

(** Conversion of a [double] to [float], as done by the assignment of a
    [double] expression to a [float] object: a finite number is rounded
    to nearest, ties to even; a NaN keeps its sign and the upper 22 bits
    of its payload and is quiet. *)
Definition double_to_float (d : double) : float :=
  match d with
  | F_finite s m e => with_sign s (binary_normalize 24 128 (Zpos m) e false)
  | F_nan s f =>
      F_nan s (Z.to_pos (Z.lor (Z.shiftr (Zpos f) 29) (Zpos QNAN_FLOAT)))
  | _ => d
  end.

Fixpoint lower (s : string) : string :=
  match s with
  | EmptyString => EmptyString
  | String c t => String (tolower c) (lower t)
  end.

(** The exponent part of a decimal numeral: [e] or [E], an optional sign
    and at least one digit; anything else is no exponent at all. *)
Definition take_exponent (s : string) : Z :=
  match s with
  | String c t =>
      if Ascii.eqb (tolower c) "e" then
        let '(neg, t1) := take_sign t in
        match take_digits t1 with
        | (EmptyString, _) => 0
        | (ds, _) => if neg then - decimal 0 ds else decimal 0 ds
        end
      else 0
  | EmptyString => 0
  end.

(** The value of [c] as a digit: the decimal digits, then the letters
    from ten on, in either case. *)
Definition alnum_val (c : ascii) : option Z :=
  if isdigit c then Some (digit_val c)
  else if (97 <=? code (tolower c)) && (code (tolower c) <=? 122)
  then Some (code (tolower c) - 87)
  else None.

Definition isxdigit (c : ascii) : bool :=
  match alnum_val c with
  | Some d => d <? 16
  | None => false
  end.

Definition xdigit_val (c : ascii) : Z :=
  match alnum_val c with
  | Some d => d
  | None => 0
  end.

Fixpoint take_xdigits (s : string) : string * string :=
  match s with
  | String c t =>
      if isxdigit c
      then let '(got, rest) := take_xdigits t in (String c got, rest)
      else (EmptyString, s)
  | EmptyString => (EmptyString, EmptyString)
  end.

Fixpoint hexadecimal (acc : Z) (ds : string) : Z :=
  match ds with
  | EmptyString => acc
  | String c t => hexadecimal (16 * acc + xdigit_val c) t
  end.

(** The exponent part of a hexadecimal numeral: [p] or [P], an optional
    sign and at least one decimal digit. *)
Definition take_binary_exponent (s : string) : Z :=
  match s with
  | String c t =>
      if Ascii.eqb (tolower c) "p" then
        let '(neg, t1) := take_sign t in
        match take_digits t1 with
        | (EmptyString, _) => 0
        | (ds, _) => if neg then - decimal 0 ds else decimal 0 ds
        end
      else 0
  | EmptyString => 0
  end.

(** A hexadecimal numeral at the head of [s]: [0x] or [0X], hexadecimal
    digits with an optional point, at least one digit, and an optional
    binary exponent.  The result is [(m, e)] for the value [m * 2 ^ e]. *)
Definition hex_float (s : string) : option (Z * Z) :=
  match s with
  | String z (String x rest) =>
      if Ascii.eqb z "0" && Ascii.eqb (tolower x) "x" then
        let '(ip, s2) := take_xdigits rest in
        let '(fp, s3) :=
          match s2 with
          | String c t => if Ascii.eqb c "." then take_xdigits t
                          else (EmptyString, s2)
          | EmptyString => (EmptyString, s2)
          end in
        match ip ++ fp with
        | EmptyString => None
        | ds => Some (hexadecimal 0 ds,
                      take_binary_exponent s3
                      - 4 * Z.of_nat (String.length fp))
        end
      else None
  | _ => None
  end.

(** The payload of [nan(n-char-sequence)].  The C standard leaves its
    meaning to the library; this is the GNU library's: the sequence is
    read by [strtoull] with base 0, and when all of it is a number that
    number, cut to 51 bits, is the payload. *)

Definition is_nchar (c : ascii) : bool :=
  match alnum_val c with
  | Some _ => true
  | None => Ascii.eqb c "_"
  end.

Fixpoint take_nchars (s : string) : string * string :=
  match s with
  | String c t =>
      if is_nchar c
      then let '(got, rest) := take_nchars t in (String c got, rest)
      else (EmptyString, s)
  | EmptyString => (EmptyString, EmptyString)
  end.

Definition ULLONG_MAX : Z := 2 ^ 64 - 1.

(** The value of [s] in [base] when every character is a digit of that
    base; a value out of range is replaced by [ULLONG_MAX]. *)
Fixpoint strtoull_all (base acc : Z) (s : string) : option Z :=
  match s with
  | EmptyString => Some acc
  | String c t =>
      match alnum_val c with
      | Some d =>
          if d <? base
          then strtoull_all base (Z.min ULLONG_MAX (base * acc + d)) t
          else None
      | None => None
      end
  end.

Definition strtoull_base0 (seq : string) : option Z :=
  match seq with
  | EmptyString => Some 0
  | String z rest =>
      if Ascii.eqb z "0" then
        match rest with
        | String x digits =>
            if Ascii.eqb (tolower x) "x" then
              match digits with
              | EmptyString => None
              | _ => strtoull_all 16 0 digits
              end
            else strtoull_all 8 0 rest
        | EmptyString => Some 0
        end
      else strtoull_all 10 0 seq
  end.

(** The fraction field of the NaN written [nan] followed by [s]. *)
Definition nan_fraction (s : string) : positive :=
  match s with
  | String c t =>
      if Ascii.eqb c "(" then
        let '(seq, rest) := take_nchars t in
        match rest with
        | String r _ =>
            if Ascii.eqb r ")" then
              match strtoull_base0 seq with
              | Some v => Z.to_pos (Zpos QNAN_DOUBLE + v mod 2 ^ 51)
              | None => QNAN_DOUBLE
              end
            else QNAN_DOUBLE
        | EmptyString => QNAN_DOUBLE
        end
      else QNAN_DOUBLE
  | EmptyString => QNAN_DOUBLE
  end.

Definition drop3 (s : string) : string :=
  match s with
  | String _ (String _ (String _ t)) => t
  | _ => EmptyString
  end.

(** [atof s] is [strtod s NULL]: leading white space, an optional sign,
    then [inf], [nan], a hexadecimal numeral or a decimal numeral (digits
    with an optional fraction and exponent), each correctly rounded.  A
    string with no such prefix converts to [+0.0]. *)
Definition atof (s : string) : double :=
  let '(neg, s1) := take_sign (skip_space s) in
  if String.prefix "inf" (lower s1) then F_infinity neg
  else if String.prefix "nan" (lower s1)
  then F_nan neg (nan_fraction (drop3 s1))
  else
    match hex_float s1 with
    | Some (m, e2) => binary_to_double neg m e2
    | None =>
        let '(ip, s2) := take_digits s1 in
        let '(fp, s3) :=
          match s2 with
          | String c t => if Ascii.eqb c "." then take_digits t
                          else (EmptyString, s2)
          | EmptyString => (EmptyString, s2)
          end in
        match ip ++ fp with
        | EmptyString => F_zero false
        | ds =>
            decimal_to_double neg (decimal 0 ds)
              (take_exponent s3 - Z.of_nat (String.length fp))
        end
    end.

(** *** sprintf: the integer conversions

    The digits of a non-negative integer, as [%u] and [%d] print them. *)

Definition digit_char (d : Z) : ascii := ascii_of_nat (Z.to_nat (48 + d)).

(** The decimal digits of [n], most significant first, put in front of
    [acc]; [fuel] bounds the number of digits. *)
Fixpoint utoa_aux (fuel : nat) (n : Z) (acc : string) : string :=
  match fuel with
  | O => acc
  | S fuel' =>
      if n <? 10 then String (digit_char n) acc
      else utoa_aux fuel' (n / 10) (String (digit_char (n mod 10)) acc)
  end.

(** [%u] of the unsigned value [n]. *)
Definition utoa (n : Z) : string :=
  utoa_aux (S (Z.to_nat (Z.log2 n))) n EmptyString.

(** [%d]. *)
Definition itoa (n : Z) : string :=
  if n <? 0 then String "-" (utoa (- n)) else utoa n.

Fixpoint zeros (k : nat) : string :=
  match k with
  | O => EmptyString
  | S k' => String "0" (zeros k')
  end.

(** [%0<width>u]: [%u] padded on the left with zeros to [width]. *)
Definition fmt_u (width : nat) (n : Z) : string :=
  let s := utoa n in zeros (width - String.length s) ++ s.

End CLib.

(** ** [app/weather copy.c]: the field extractor *)

Module Weather.
Import CLib.

(** [weather_info_t] is declared in [weather.h]; its fields are taken
    from their uses.  A character array holds the string it stores. *)
Record weather_info_t : Type := {
  city : string;
  loaction : string;
  weather : string;
  weather_code : Z;
  temperature : float
}.

(** The record [{ 0 }]. *)
Definition weather_zero : weather_info_t :=
  {| city := ""; loaction := ""; weather := "";
     weather_code := 0; temperature := F_zero false |}.

Definition set_city (i : weather_info_t) (s : string) :=
  {| city := s; loaction := loaction i; weather := weather i;
     weather_code := weather_code i; temperature := temperature i |}.
Definition set_loaction (i : weather_info_t) (s : string) :=
  {| city := city i; loaction := s; weather := weather i;
     weather_code := weather_code i; temperature := temperature i |}.
Definition set_weather (i : weather_info_t) (s : string) :=
  {| city := city i; loaction := loaction i; weather := s;
     weather_code := weather_code i; temperature := temperature i |}.
Definition set_weather_code (i : weather_info_t) (n : Z) :=
  {| city := city i; loaction := loaction i; weather := weather i;
     weather_code := n; temperature := temperature i |}.
Definition set_temperature (i : weather_info_t) (t : float) :=
  {| city := city i; loaction := loaction i; weather := weather i;
     weather_code := weather_code i; temperature := t |}.

(** The anchors searched for with [strstr]. *)
Definition key_results : string := qq "'results':".
Definition key_location : string := qq "'location':".
Definition key_now : string := qq "'now':".
Definition key_name : string := qq "'name':".
Definition key_path : string := qq "'path':".
Definition key_text : string := qq "'text':".
Definition key_code : string := qq "'code':".
Definition key_temperature : string := qq "'temperature':".

(** The formats of the string fields: the key, white space, a quote,
    the scan set [%<width>[^q]] where q is the quote, and a quote. *)
Definition fmt_quoted (key : string) (width : nat) : list directive :=
  [d_lit key; d_space; d_lit (qq "'");
   d_scanset_not width [dquote]; d_lit (qq "'")].

(** The format of the weather code: the key, white space, a quote,
    [%d] and a quote. *)
Definition fmt_quoted_int (key : string) : list directive :=
  [d_lit key; d_space; d_lit (qq "'"); d_int; d_lit (qq "'")].

(** The string [sscanf] assigned to its one [char *] argument, if any. *)
Definition stored_str (r : Z * list scan_val) : option string :=
  match snd r with
  | v_str s :: _ => Some s
  | _ => None
  end.

Definition stored_int (r : Z * list scan_val) : option Z :=
  match snd r with
  | v_int n :: _ => Some n
  | _ => None
  end.

(** [parse_seniverse_response response info]: the returned flag and the
    record [info] points to when the function returns. *)
Definition parse_seniverse_response (response : string)
    (info : weather_info_t) : bool * weather_info_t :=
  match strstr response key_results with
  | None => (false, info)
  | Some response =>
  match strstr response key_location with
  | None => (false, info)
  | Some location_response =>
  let info :=
    match strstr location_response key_name with
    | Some loaction_name_response =>
        match stored_str (sscanf loaction_name_response
                            (fmt_quoted key_name 31)) with
        | Some s => set_city info s
        | None => info
        end
    | None => info
    end in
  let info :=
    match strstr location_response key_path with
    | Some loaction_path_response =>
        match stored_str (sscanf loaction_path_response
                            (fmt_quoted key_path 128)) with
        | Some s => set_loaction info s
        | None => info
        end
    | None => info
    end in
  match strstr response key_now with
  | None => (false, info)
  | Some now_response =>
  let info :=
    match strstr now_response key_text with
    | Some now_text_response =>
        match stored_str (sscanf now_text_response
                            (fmt_quoted key_text 15)) with
        | Some s => set_weather info s
        | None => info
        end
    | None => info
    end in
  let info :=
    match strstr now_response key_code with
    | Some now_code_response =>
        match stored_int (sscanf now_code_response
                            (fmt_quoted_int key_code)) with
        | Some n => set_weather_code info n
        | None => info
        end
    | None => info
    end in
  let info :=
    match strstr now_response key_temperature with
    | Some now_temperature_response =>
        let r := sscanf now_temperature_response
                   (fmt_quoted key_temperature 15) in
        let temperature_str :=
          match stored_str r with Some s => s | None => "" end in
        if fst r =? 1
        then set_temperature info (double_to_float (atof temperature_str))
        else info
    | None => info
    end in
  (true, info)
  end end end.

End Weather.

(** ** [app/page/main_page copy.c]: the setters of the Wi-Fi name, the
    weather icon and the city *)

Module MainPage.

(** [image_t] objects declared in [ui.h]. *)
Inductive image : Type :=
| img_weather_sunny
| img_weather_cloudy
| img_weather_rainy
| img_weather_snowy
| img_weather_unknown.

Inductive font : Type :=
| font16_maple_bold
| font24_maple_bold.

(** [mkcolor r g b] is kept as its three arguments. *)
Definition color : Type := (Z * Z * Z)%type.
Definition mkcolor (r g b : Z) : color := (r, g, b).

Definition COLOR_BACKGROUND : color := mkcolor 0 0 0.
Definition COLOR_TEXT_WHITE : color := mkcolor 255 255 255.
Definition COLOR_TEXT_YELLOW : color := mkcolor 255 255 0.
Definition COLOR_TEXT_CYAN : color := mkcolor 0 255 255.

Definition WIFI_SSID_X : Z := 10.
Definition WIFI_SSID_Y : Z := 10.
Definition WEATHER_ICON_X : Z := 160.
Definition WEATHER_ICON_Y : Z := 200.

(** Calls into the rendering primitives of [ui.h]. *)
Inductive ui_call : Type :=
| ui_fill_color (x1 y1 x2 y2 : Z) (c : color)
| ui_write_string (x y : Z) (s : string) (fg bg : color) (f : font)
| ui_draw_image (x y : Z) (img : image).

(** The icon the [switch] of [main_page_redraw_outdoor_weather_icon]
    leaves in [weather_icon], which starts as NULL. *)
Definition weather_icon (code : Z) : option image :=
  match code with
  | 0 | 1 => Some img_weather_sunny
  | 4 | 5 | 6 | 7 | 8 => Some img_weather_cloudy
  | 9 | 10 | 11 | 12 | 13 => Some img_weather_rainy
  | 14 | 15 | 16 | 17 => Some img_weather_snowy
  | _ => Some img_weather_unknown
  end.

Definition main_page_redraw_outdoor_weather_icon (code : Z)
  : list ui_call :=
  match weather_icon code with
  | Some icon =>
      [ui_fill_color WEATHER_ICON_X WEATHER_ICON_Y
         (WEATHER_ICON_X + 64) (WEATHER_ICON_Y + 64) COLOR_BACKGROUND;
       ui_draw_image WEATHER_ICON_X WEATHER_ICON_Y icon]
  | None => []
  end.

Section Screen.
(** The screen width of [ui.h]. *)
Variable UI_WIDTH : Z.

Definition main_page_redraw_wifi_ssid (ssid : string) : list ui_call :=
  [ui_fill_color (WIFI_SSID_X + 60) WIFI_SSID_Y
     (UI_WIDTH - 1) (WIFI_SSID_Y + 20) COLOR_BACKGROUND;
   ui_write_string (WIFI_SSID_X + 60) WIFI_SSID_Y ssid
     COLOR_TEXT_WHITE COLOR_BACKGROUND font16_maple_bold].

Definition main_page_redraw_outdoor_city (city : string)
  : list ui_call :=
  let CITY_X := 20 in
  let CITY_Y := 250 in
  [ui_fill_color CITY_X CITY_Y (UI_WIDTH - 1) (CITY_Y + 20)
     COLOR_BACKGROUND;
   ui_write_string CITY_X CITY_Y city
     COLOR_TEXT_CYAN COLOR_BACKGROUND font16_maple_bold].
End Screen.

End MainPage.

(** ** [app/app copy.c]: the five jobs and the startup entry point *)

Module App.
Import CLib Weather.

(** *** Time units and job intervals, in milliseconds *)

Definition MILLISECONDS (x : Z) : Z := x.
Definition SECONDS (x : Z) : Z := MILLISECONDS (x * 1000).
Definition MINUTES (x : Z) : Z := SECONDS (x * 60).
Definition HOURS (x : Z) : Z := MINUTES (x * 60).
Definition DAYS (x : Z) : Z := HOURS (x * 24).

Definition TIME_SYNC_INTERVAL : Z := HOURS 1.
Definition WIFI_UPDATE_INTERVAL : Z := SECONDS 5.
Definition TIME_UPDATE_INTERVAL : Z := SECONDS 1.
Definition INNER_UPDATE_INTERVAL : Z := SECONDS 3.
Definition OUTDOOR_UPDATE_INTERVAL : Z := MINUTES 1.

(** *** Values exchanged with the collaborators

    The structures are declared in [rtc.h] and [esp_at.h]; their fields
    are taken from their uses in the jobs. *)

Record rtc_date_time_t : Type := {
  rtc_year : Z; rtc_month : Z; rtc_day : Z;
  rtc_hour : Z; rtc_minute : Z; rtc_second : Z; rtc_weekday : Z
}.

Record esp_date_time_t : Type := {
  esp_year : Z; esp_month : Z; esp_day : Z;
  esp_hour : Z; esp_minute : Z; esp_second : Z; esp_weekday : Z
}.

Record esp_wifi_info_t : Type := {
  ssid : string; bssid : string; channel : Z; rssi : Z; connected : bool
}.

Definition rtc_zero : rtc_date_time_t :=
  {| rtc_year := 0; rtc_month := 0; rtc_day := 0;
     rtc_hour := 0; rtc_minute := 0; rtc_second := 0; rtc_weekday := 0 |}.

Definition wifi_zero : esp_wifi_info_t :=
  {| ssid := ""; bssid := ""; channel := 0; rssi := 0;
     connected := false |}.

(** *** Equalities

    [memcmp (a, b, sizeof ...) == 0] on two structures is equality of
    every field; on a [float] field it is equality of the bit pattern,
    while the C operator [==] on [float]s is the IEEE comparison. *)

Definition float_bits_eqb (a b : float) : bool :=
  match a, b with
  | F_zero s1, F_zero s2 => Bool.eqb s1 s2
  | F_infinity s1, F_infinity s2 => Bool.eqb s1 s2
  | F_nan s1 f1, F_nan s2 f2 => Bool.eqb s1 s2 && Pos.eqb f1 f2
  | F_finite s1 m1 e1, F_finite s2 m2 e2 =>
      Bool.eqb s1 s2 && Pos.eqb m1 m2 && Z.eqb e1 e2
  | _, _ => false
  end.

Definition float_eq (a b : float) : bool := SFeqb (to_spec a) (to_spec b).

Definition memcmp_rtc (a b : rtc_date_time_t) : bool :=
  (rtc_year a =? rtc_year b) && (rtc_month a =? rtc_month b)
  && (rtc_day a =? rtc_day b) && (rtc_hour a =? rtc_hour b)
  && (rtc_minute a =? rtc_minute b) && (rtc_second a =? rtc_second b)
  && (rtc_weekday a =? rtc_weekday b).

Definition memcmp_wifi (a b : esp_wifi_info_t) : bool :=
  String.eqb (ssid a) (ssid b) && String.eqb (bssid a) (bssid b)
  && (channel a =? channel b) && (rssi a =? rssi b)
  && Bool.eqb (connected a) (connected b).

Definition memcmp_weather (a b : weather_info_t) : bool :=
  String.eqb (city a) (city b) && String.eqb (loaction a) (loaction b)
  && String.eqb (weather a) (weather b)
  && (weather_code a =? weather_code b)
  && float_bits_eqb (temperature a) (temperature b).

(** *** Calls made by the jobs *)

Inductive timer : Type :=
| time_sync_timer
| wifi_update_timer
| time_update_timer
| inner_update_timer
| outdoor_update_timer.

(** The job functions, as the values of type [app_job_t]. *)
Inductive app_job_t : Type :=
| fn_time_sync
| fn_wifi_update
| fn_time_update
| fn_inner_update
| fn_outdoor_update.

(** The two timer callbacks: deferred to the work queue, or inline. *)
Inductive timer_cb : Type :=
| cb_work_timer
| cb_app_timer.

(** One call to a collaborator.  [printf] keeps its format only;
    [xTimerCreate] names the handle variable its result is stored in;
    [workqueue_run job] is [workqueue_run (app_work, job)]. *)
Inductive call : Type :=
| printf (format : string)
| rtc_set_time (date : rtc_date_time_t)
| xTimerCreate (handle : timer) (name : string) (period : Z)
    (auto_reload : bool) (id : app_job_t) (callback : timer_cb)
| xTimerStart (handle : timer)
| xTimerChangePeriod (handle : timer) (period : Z)
| workqueue_run (job : app_job_t)
| main_page_redraw_wifi_ssid (ssid : string)
| main_page_redraw_time (date : rtc_date_time_t)
| main_page_redraw_date (date : rtc_date_time_t)
| main_page_redraw_inner_temperature (temperature : float)
| main_page_redraw_inner_humidity (humidity : float)
| main_page_redraw_outdoor_temperature (temperature : float)
| main_page_redraw_outdoor_weather_icon (code : Z)
| main_page_redraw_outdoor_city (city : string).

(** The calls that reach the display. *)
Definition is_display (c : call) : bool :=
  match c with
  | main_page_redraw_wifi_ssid _
  | main_page_redraw_time _
  | main_page_redraw_date _
  | main_page_redraw_inner_temperature _
  | main_page_redraw_inner_humidity _
  | main_page_redraw_outdoor_temperature _
  | main_page_redraw_outdoor_weather_icon _
  | main_page_redraw_outdoor_city _ => true
  | _ => false
  end.

Definition forwards (calls : list call) : list call :=
  filter is_display calls.

Definition is_reprogram (c : call) : bool :=
  match c with
  | xTimerChangePeriod _ _ => true
  | _ => false
  end.

Definition reprograms (calls : list call) : list call :=
  filter is_reprogram calls.

Definition nl : string := String (ascii_of_nat 10) EmptyString.

(** What the AHT20 driver answers to the three calls of one read. *)
Record aht20_answer : Type := {
  start_measurement : bool;
  wait_for_measurement : bool;
  read_measurement : option (float * float)
}.

Section Jobs.
(** The tick conversion macro of the FreeRTOS configuration. *)
Variable pdMS_TO_TICKS : Z -> Z.

(** [time_sync], given the answer of [esp_at_sntp_get_time]. *)
Definition time_sync (sntp : option esp_date_time_t) : list call :=
  let restart_sync_delay := TIME_SYNC_INTERVAL in
  let err restart_sync_delay :=
    [xTimerChangePeriod time_sync_timer
       (pdMS_TO_TICKS restart_sync_delay)] in
  match sntp with
  | None =>
      printf ("[SNTP] get time failed" ++ nl) :: err (SECONDS 1)
  | Some esp_date =>
      if esp_year esp_date <? 2000 then
        printf ("[SNTP] invalid date formate" ++ nl) :: err (SECONDS 1)
      else
        let rtc_date :=
          {| rtc_year := esp_year esp_date;
             rtc_month := esp_month esp_date;
             rtc_day := esp_day esp_date;
             rtc_hour := esp_hour esp_date;
             rtc_minute := esp_minute esp_date;
             rtc_second := esp_second esp_date;
             rtc_weekday := esp_weekday esp_date |} in
        printf ("[SNTP] sync time: %04u-%02u-%02u %02u:%02u:%02u (%d)"
                ++ nl)
        :: rtc_set_time rtc_date
        :: err restart_sync_delay
  end.

(** [wifi_update], from the static [last_info] and the answer of
    [esp_at_get_wifi_info]. *)
Definition wifi_update (last_info : esp_wifi_info_t)
    (at_info : option esp_wifi_info_t) : esp_wifi_info_t * list call :=
  match at_info with
  | None => (last_info, [printf ("[AT] wifi info get failed" ++ nl)])
  | Some info =>
      if memcmp_wifi info last_info then (last_info, [])
      else if Bool.eqb (connected last_info) (connected info)
      then (last_info, [])
      else if connected info then
        (info,
         [printf ("[WIFI] connected to %s" ++ nl);
          printf ("[WIFI] SSID: %s, BSSID: %s, Channel: %d, RSSI: %d"
                  ++ nl);
          main_page_redraw_wifi_ssid (ssid info)])
      else
        (info,
         [printf ("[WIFI] disconnected from %s" ++ nl);
          main_page_redraw_wifi_ssid "wifi lost"])
  end.

(** [time_update], from the static [last_date] and the reading of
    [rtc_get_time]. *)
Definition time_update (last_date : rtc_date_time_t)
    (date : rtc_date_time_t) : rtc_date_time_t * list call :=
  if rtc_year date <? 2020 then (last_date, [])
  else if memcmp_rtc date last_date then (last_date, [])
  else (date, [main_page_redraw_time date; main_page_redraw_date date]).

(** [inner_update], from the statics [last_temperature] and
    [last_humidity] and the answers of the sensor driver. *)
Definition inner_update (last : float * float) (aht20 : aht20_answer)
  : (float * float) * list call :=
  let '(last_temperature, last_humidity) := last in
  if negb (start_measurement aht20) then
    (last, [printf ("[AHT20] start measurement failed" ++ nl)])
  else if negb (wait_for_measurement aht20) then
    (last, [printf ("[AHT20] wait for measurement failed" ++ nl)])
  else
    match read_measurement aht20 with
    | None => (last, [printf ("[AHT20] read measurement failed" ++ nl)])
    | Some (temperature, humidity) =>
        if float_eq temperature last_temperature
           && float_eq humidity last_humidity
        then (last, [])
        else
          ((temperature, humidity),
           [printf ("[AHT20] Temperature: %.1f, Humidity: %.1f" ++ nl);
            main_page_redraw_inner_temperature temperature;
            main_page_redraw_inner_humidity humidity])
    end.

(** [outdoor_update], from the static [last_weather] and the answer
    of [esp_at_http_get] ([None] is NULL). *)
Definition outdoor_update (last_weather : weather_info_t)
    (weather_http_response : option string)
  : weather_info_t * list call :=
  match weather_http_response with
  | None => (last_weather, [printf ("[WEATHER] http error" ++ nl)])
  | Some response =>
      match parse_seniverse_response response weather_zero with
      | (false, _) =>
          (last_weather, [printf ("[WEATHER] parse failed" ++ nl)])
      | (true, weather) =>
          if memcmp_weather last_weather weather then (last_weather, [])
          else
            (weather,
             [printf ("[WEATHER] %s, %s, %.1f" ++ nl);
              main_page_redraw_outdoor_temperature (temperature weather);
              main_page_redraw_outdoor_weather_icon
                (weather_code weather)])
      end
  end.

(** [app_init]: five timers are created, jobs are handed to the work
    queue, five timers are started. *)
Definition app_init : list call :=
  [xTimerCreate time_update_timer "time update"
     (pdMS_TO_TICKS TIME_UPDATE_INTERVAL) true fn_time_update cb_app_timer;
   xTimerCreate time_sync_timer "time sync"
     (pdMS_TO_TICKS 200) false fn_time_sync cb_work_timer;
   xTimerCreate wifi_update_timer "wifi update"
     (pdMS_TO_TICKS WIFI_UPDATE_INTERVAL) true fn_wifi_update
     cb_work_timer;
   xTimerCreate inner_update_timer "inner upadte"
     (pdMS_TO_TICKS INNER_UPDATE_INTERVAL) true fn_inner_update
     cb_work_timer;
   xTimerCreate outdoor_update_timer "outdoor update"
     (pdMS_TO_TICKS OUTDOOR_UPDATE_INTERVAL) true fn_outdoor_update
     cb_work_timer;
   workqueue_run fn_time_sync;
   workqueue_run fn_wifi_update;
   workqueue_run fn_inner_update;
   workqueue_run fn_outdoor_update;
   xTimerStart time_update_timer;
   xTimerStart time_sync_timer;
   xTimerStart wifi_update_timer;
   xTimerStart inner_update_timer;
   xTimerStart outdoor_update_timer].

(** *** Running jobs

    The statics of the five job functions, and the answers the
    collaborators give during one invocation. *)

Record statics : Type := {
  last_info : esp_wifi_info_t;
  last_date : rtc_date_time_t;
  last_inner : float * float;
  last_weather : weather_info_t
}.

Record answers : Type := {
  sntp_time : option esp_date_time_t;
  wifi_info : option esp_wifi_info_t;
  rtc_time : rtc_date_time_t;
  aht20 : aht20_answer;
  http_get : option string
}.

Definition statics_zero : statics :=
  {| last_info := wifi_zero; last_date := rtc_zero;
     last_inner := (F_zero false, F_zero false);
     last_weather := weather_zero |}.

(** [app_work job]: the job function behind the pointer is called. *)
Definition app_work (job : app_job_t) (st : statics) (env : answers)
  : statics * list call :=
  match job with
  | fn_time_sync => (st, time_sync (sntp_time env))
  | fn_wifi_update =>
      let '(l, calls) := wifi_update (last_info st) (wifi_info env) in
      ({| last_info := l; last_date := last_date st;
          last_inner := last_inner st;
          last_weather := last_weather st |}, calls)
  | fn_time_update =>
      let '(l, calls) := time_update (last_date st) (rtc_time env) in
      ({| last_info := last_info st; last_date := l;
          last_inner := last_inner st;
          last_weather := last_weather st |}, calls)
  | fn_inner_update =>
      let '(l, calls) := inner_update (last_inner st) (aht20 env) in
      ({| last_info := last_info st; last_date := last_date st;
          last_inner := l;
          last_weather := last_weather st |}, calls)
  | fn_outdoor_update =>
      let '(l, calls) := outdoor_update (last_weather st) (http_get env) in
      ({| last_info := last_info st; last_date := last_date st;
          last_inner := last_inner st;
          last_weather := l |}, calls)
  end.

(** [work_timer_cb]: on expiry the job kept as the timer ID is handed to
    the work queue. *)
Definition work_timer_cb (id : app_job_t) : list call :=
  [workqueue_run id].

(** [app_timer_cb]: on expiry the job kept as the timer ID is called in
    the timer context. *)
Definition app_timer_cb (id : app_job_t) (st : statics) (env : answers)
  : statics * list call :=
  app_work id st env.

(** Successive invocations of [wifi_update], one per answer. *)
Fixpoint wifi_updates (last_info : esp_wifi_info_t)
    (at_infos : list (option esp_wifi_info_t))
  : esp_wifi_info_t * list call :=
  match at_infos with
  | [] => (last_info, [])
  | a :: rest =>
      let '(l1, calls1) := wifi_update last_info a in
      let '(l2, calls2) := wifi_updates l1 rest in
      (l2, (calls1 ++ calls2)%list)
  end.

(** Successive invocations of jobs through [app_work]. *)
Fixpoint app_works (st : statics) (todo : list (app_job_t * answers))
  : statics * list call :=
  match todo with
  | [] => (st, [])
  | (job, env) :: rest =>
      let '(st1, calls1) := app_work job st env in
      let '(st2, calls2) := app_works st1 rest in
      (st2, (calls1 ++ calls2)%list)
  end.

End Jobs.

(** The jobs handed to the work queue, and the timers started, by a
    sequence of calls. *)
Definition enqueued (calls : list call) : list app_job_t :=
  flat_map (fun c => match c with workqueue_run j => [j] | _ => [] end)
    calls.

Definition started (calls : list call) : list timer :=
  flat_map (fun c => match c with xTimerStart t => [t] | _ => [] end)
    calls.

Definition all_timers : list timer :=
  [time_sync_timer; wifi_update_timer; time_update_timer;
   inner_update_timer; outdoor_update_timer].

Definition all_jobs : list app_job_t :=
  [fn_time_sync; fn_wifi_update; fn_time_update;
   fn_inner_update; fn_outdoor_update].

End App.

(** ** [app/page/main_page copy.c]: the page layout and the text setters *)

Module Page.
Import CLib MainPage.

Definition TIME_X : Z := 20.
Definition TIME_Y : Z := 50.
Definition DATE_X : Z := 20.
Definition DATE_Y : Z := 90.
Definition INNER_TEMP_X : Z := 20.
Definition INNER_TEMP_Y : Z := 130.
Definition INNER_HUMI_X : Z := 20.
Definition INNER_HUMI_Y : Z := 170.
Definition OUTDOOR_TEMP_X : Z := 20.
Definition OUTDOOR_TEMP_Y : Z := 210.

(** The text [sprintf] leaves in [time_str]: format [%02u:%02u:%02u]. *)
Definition time_str (time : App.rtc_date_time_t) : string :=
  fmt_u 2 (App.rtc_hour time) ++ ":" ++ fmt_u 2 (App.rtc_minute time)
  ++ ":" ++ fmt_u 2 (App.rtc_second time).

(** The text [sprintf] leaves in [date_str]: format
    [%04u-%02u-%02u Week:%u]. *)
Definition date_str (date : App.rtc_date_time_t) : string :=
  fmt_u 4 (App.rtc_year date) ++ "-" ++ fmt_u 2 (App.rtc_month date)
  ++ "-" ++ fmt_u 2 (App.rtc_day date)
  ++ " Week:" ++ utoa (App.rtc_weekday date).

Section Screen.
(** The screen size of [ui.h], and the conversion [%.1f] of the C
    library's [sprintf]. *)
Variable UI_WIDTH UI_HEIGHT : Z.
Variable fmt_f1 : float -> string.

Definition main_page_display : list ui_call :=
  [ui_fill_color 0 0 (UI_WIDTH - 1) (UI_HEIGHT - 1) COLOR_BACKGROUND;
   ui_write_string WIFI_SSID_X WIFI_SSID_Y "WiFi: "
     COLOR_TEXT_YELLOW COLOR_BACKGROUND font16_maple_bold;
   ui_write_string 10 (TIME_Y - 20) "Time:"
     COLOR_TEXT_CYAN COLOR_BACKGROUND font16_maple_bold;
   ui_write_string 10 (DATE_Y - 20) "Date:"
     COLOR_TEXT_CYAN COLOR_BACKGROUND font16_maple_bold;
   ui_write_string 10 (INNER_TEMP_Y - 20) "Indoor:"
     COLOR_TEXT_CYAN COLOR_BACKGROUND font16_maple_bold;
   ui_write_string 10 (OUTDOOR_TEMP_Y - 20) "Outdoor:"
     COLOR_TEXT_CYAN COLOR_BACKGROUND font16_maple_bold].

(** The setters below that format a text call [sprintf] on a local
    buffer, [time_str[16]] or a buffer of 32 bytes.  [sprintf] writes the
    text and its closing NUL without looking at the size of the buffer:
    the calls listed for such a setter are the ones it makes when the
    text has fewer characters than the buffer has bytes, which is what
    [fits] says of a display call; for a longer text [sprintf] writes
    past the buffer and C does not define what the setter does. *)
Definition within (size : nat) (text : string) : bool :=
  (String.length text <? size)%nat.

Definition main_page_redraw_time (time : App.rtc_date_time_t)
  : list ui_call :=
  [ui_fill_color TIME_X TIME_Y (UI_WIDTH - 1) (TIME_Y + 30)
     COLOR_BACKGROUND;
   ui_write_string TIME_X TIME_Y (time_str time)
     COLOR_TEXT_WHITE COLOR_BACKGROUND font24_maple_bold].

Definition main_page_redraw_date (date : App.rtc_date_time_t)
  : list ui_call :=
  [ui_fill_color DATE_X DATE_Y (UI_WIDTH - 1) (DATE_Y + 20)
     COLOR_BACKGROUND;
   ui_write_string DATE_X DATE_Y (date_str date)
     COLOR_TEXT_WHITE COLOR_BACKGROUND font16_maple_bold].

Definition main_page_redraw_inner_temperature (temperature : float)
  : list ui_call :=
  let temp_str := "Temp: " ++ fmt_f1 temperature ++ " C" in
  [ui_fill_color INNER_TEMP_X INNER_TEMP_Y (UI_WIDTH - 1)
     (INNER_TEMP_Y + 20) COLOR_BACKGROUND;
   ui_write_string INNER_TEMP_X INNER_TEMP_Y temp_str
     COLOR_TEXT_WHITE COLOR_BACKGROUND font16_maple_bold].

Definition main_page_redraw_inner_humidity (humidity : float)
  : list ui_call :=
  let humi_str := "Humi: " ++ fmt_f1 humidity ++ "%" in
  [ui_fill_color INNER_HUMI_X INNER_HUMI_Y (UI_WIDTH - 1)
     (INNER_HUMI_Y + 20) COLOR_BACKGROUND;
   ui_write_string INNER_HUMI_X INNER_HUMI_Y humi_str
     COLOR_TEXT_WHITE COLOR_BACKGROUND font16_maple_bold].

Definition main_page_redraw_outdoor_temperature (temperature : float)
  : list ui_call :=
  let temp_str := "Temp: " ++ fmt_f1 temperature ++ " C" in
  [ui_fill_color OUTDOOR_TEMP_X OUTDOOR_TEMP_Y (UI_WIDTH - 1)
     (OUTDOOR_TEMP_Y + 20) COLOR_BACKGROUND;
   ui_write_string OUTDOOR_TEMP_X OUTDOOR_TEMP_Y temp_str
     COLOR_TEXT_WHITE COLOR_BACKGROUND font16_maple_bold].

(** What a display call of a job does on the screen: the body of the
    setter it names.  The other calls do not reach the page module. *)
Definition render (c : App.call) : list ui_call :=
  match c with
  | App.main_page_redraw_wifi_ssid ssid =>
      MainPage.main_page_redraw_wifi_ssid UI_WIDTH ssid
  | App.main_page_redraw_time d => main_page_redraw_time d
  | App.main_page_redraw_date d => main_page_redraw_date d
  | App.main_page_redraw_inner_temperature t =>
      main_page_redraw_inner_temperature t
  | App.main_page_redraw_inner_humidity h =>
      main_page_redraw_inner_humidity h
  | App.main_page_redraw_outdoor_temperature t =>
      main_page_redraw_outdoor_temperature t
  | App.main_page_redraw_outdoor_weather_icon code =>
      MainPage.main_page_redraw_outdoor_weather_icon code
  | App.main_page_redraw_outdoor_city city =>
      MainPage.main_page_redraw_outdoor_city UI_WIDTH city
  | _ => []
  end.

(** The text the setter named by a display call formats stays within
    the buffer the setter declares for it; the setters that format
    nothing have no buffer to overrun. *)
Definition fits (c : App.call) : bool :=
  match c with
  | App.main_page_redraw_time d => within 16 (time_str d)
  | App.main_page_redraw_date d => within 32 (date_str d)
  | App.main_page_redraw_inner_temperature t =>
      within 32 ("Temp: " ++ fmt_f1 t ++ " C")
  | App.main_page_redraw_inner_humidity h =>
      within 32 ("Humi: " ++ fmt_f1 h ++ "%")
  | App.main_page_redraw_outdoor_temperature t =>
      within 32 ("Temp: " ++ fmt_f1 t ++ " C")
  | _ => true
  end.

End Screen.

End Page.

(** ** Vocabulary of the properties *)

Import CLib Weather App.

(** [needle] occurs somewhere in [hay]. *)
Definition occurs (needle hay : string) : Prop :=
  exists pre post, hay = pre ++ needle ++ post.

(** The text assigned to a string field whose key is searched for in
    [section], if the key is found and its scan assigns. *)
Definition scanned_str (section key : string) (width : nat) : option string :=
  match strstr section key with
  | Some at_key => stored_str (sscanf at_key (fmt_quoted key width))
  | None => None
  end.

Definition scanned_int (section key : string) : option Z :=
  match strstr section key with
  | Some at_key => stored_int (sscanf at_key (fmt_quoted_int key))
  | None => None
  end.

(** The rational a finite floating-point datum stands for. *)
Definition float_value (f : float) : option Q :=
  match f with
  | F_zero _ => Some 0%Q
  | F_finite s m e =>
      Some ((if s then - inject_Z (Zpos m) else inject_Z (Zpos m))
            * Qpower 2 e)%Q
  | _ => None
  end.

(** The exemplar payload of the weather service, and the same payload
    with its code key removed. *)
Definition payload : string :=
  qq "{'results':[{'location':{'name':'Singapore','path':'Singapore,Singapore,Singapore'},'now':{'text':'Sunny','code':'0','temperature':'28'}}]}".

Definition payload_without_code : string :=
  qq "{'results':[{'location':{'name':'Singapore','path':'Singapore,Singapore,Singapore'},'now':{'text':'Sunny','temperature':'28'}}]}".

(** The reading of the extractor with two mandatory anchors only: the
    container anchor and the sub-object anchor [sub]. *)
Definition two_anchors_suffice (sub : string) : Prop :=
  forall response info,
    occurs key_results response -> occurs sub response ->
    fst (parse_seniverse_response response info) = true.

(** The five icon categories by ranges of the weather code. *)
Definition icon_by_range (code : Z) : MainPage.image :=
  if (0 <=? code) && (code <=? 1) then MainPage.img_weather_sunny
  else if (4 <=? code) && (code <=? 8) then MainPage.img_weather_cloudy
  else if (9 <=? code) && (code <=? 13) then MainPage.img_weather_rainy
  else if (14 <=? code) && (code <=? 17) then MainPage.img_weather_snowy
  else MainPage.img_weather_unknown.


(** The Wi-Fi job written as a filter that compares nothing but the
    connected flag of the new status with that of the snapshot. *)
Definition wifi_connected_filter (last_info : esp_wifi_info_t)
    (at_info : option esp_wifi_info_t) : esp_wifi_info_t * list call :=
  match at_info with
  | None => (last_info, [printf ("[AT] wifi info get failed" ++ nl)])
  | Some info =>
      if Bool.eqb (connected last_info) (connected info)
      then (last_info, [])
      else if connected info then
        (info,
         [printf ("[WIFI] connected to %s" ++ nl);
          printf ("[WIFI] SSID: %s, BSSID: %s, Channel: %d, RSSI: %d" ++ nl);
          main_page_redraw_wifi_ssid (ssid info)])
      else
        (info,
         [printf ("[WIFI] disconnected from %s" ++ nl);
          main_page_redraw_wifi_ssid "wifi lost"])
  end.

(** A successful sensor read of the given temperature and humidity. *)
Definition aht20_reads (t h : float) : aht20_answer :=
  {| start_measurement := true; wait_for_measurement := true;
     read_measurement := Some (t, h) |}.


(** *** Vocabulary of the further properties *)

(** No double quote occurs in [s]. *)
Fixpoint quote_free (s : string) : bool :=
  match s with
  | EmptyString => true
  | String c t => negb (Ascii.eqb c dquote) && quote_free t
  end.

(** Every character of [s] is white space. *)
Fixpoint all_space (s : string) : bool :=
  match s with
  | EmptyString => true
  | String c t => isspace c && all_space t
  end.

(** [v] between double quotes, followed by [s]. *)
Definition quoted_then (v s : string) : string :=
  String dquote (v ++ String dquote s).

(** A response of the documented shape, with the given field texts. *)
Definition render_payload (name path text code temp : string) : string :=
  "{" ++ key_results ++ "[{" ++ key_location ++ "{"
  ++ key_name ++ quoted_then name
  ("," ++ key_path ++ quoted_then path
  ("}," ++ key_now ++ "{" ++ key_text ++ quoted_then text
  ("," ++ key_code ++ quoted_then code
  ("," ++ key_temperature ++ quoted_then temp "}}]}")))).

(** A field text the extractor can take whole: not empty, free of double
    quotes and at most [width] characters long. *)
Definition field_ok (width : nat) (v : string) : bool :=
  negb (String.eqb v EmptyString) && quote_free v
  && (String.length v <=? width)%nat.

(** Every character of [s] is a decimal digit. *)
Definition digits_only (s : string) : Prop :=
  Forall (fun c => isdigit c = true) (list_ascii_of_string s).

(** [a] and [b] agree as far as both go. *)
Fixpoint compatible (a b : string) : bool :=
  match a, b with
  | String x a', String y b' => Ascii.eqb x y && compatible a' b'
  | _, _ => true
  end.

(** No occurrence of [needle] can start inside [lit], whatever text
    follows [lit]. *)
Fixpoint clear_of (needle lit : string) : bool :=
  match lit with
  | EmptyString => true
  | String _ t => negb (compatible needle lit) && clear_of needle t
  end.

(** The string fields fit the widths the extractor scans with. *)
Definition bounded_weather (w : weather_info_t) : Prop :=
  (String.length (city w) <= 31)%nat /\
  (String.length (loaction w) <= 128)%nat /\
  (String.length (weather w) <= 15)%nat.

(** The job obtained a usable value from its collaborator. *)
Definition fetch_ok (job : app_job_t) (env : answers) : bool :=
  match job with
  | fn_time_sync =>
      match sntp_time env with
      | Some d => 2000 <=? esp_year d
      | None => false
      end
  | fn_wifi_update =>
      match wifi_info env with Some _ => true | None => false end
  | fn_time_update => 2020 <=? rtc_year (rtc_time env)
  | fn_inner_update =>
      start_measurement (aht20 env) && wait_for_measurement (aht20 env)
      && match read_measurement (aht20 env) with
         | Some _ => true
         | None => false
         end
  | fn_outdoor_update =>
      match http_get env with
      | Some r => fst (parse_seniverse_response r weather_zero)
      | None => false
      end
  end.

(** The job whose domain a display setter belongs to; the city setter
    belongs to none. *)
Definition setter_job (c : call) : option app_job_t :=
  match c with
  | main_page_redraw_wifi_ssid _ => Some fn_wifi_update
  | main_page_redraw_time _ | main_page_redraw_date _ => Some fn_time_update
  | main_page_redraw_inner_temperature _
  | main_page_redraw_inner_humidity _ => Some fn_inner_update
  | main_page_redraw_outdoor_temperature _
  | main_page_redraw_outdoor_weather_icon _ => Some fn_outdoor_update
  | _ => None
  end.

Definition is_rtc_write (c : call) : bool :=
  match c with
  | rtc_set_time _ => true
  | _ => false
  end.

(** The connected flag of the last successful status fetch, [init] when
    there is none. *)
Fixpoint latest_connected (init : bool)
    (at_infos : list (option esp_wifi_info_t)) : bool :=
  match at_infos with
  | [] => init
  | Some info :: rest => latest_connected (connected info) rest
  | None :: rest => latest_connected init rest
  end.

Definition timer_eqb (a b : timer) : bool :=
  match a, b with
  | time_sync_timer, time_sync_timer
  | wifi_update_timer, wifi_update_timer
  | time_update_timer, time_update_timer
  | inner_update_timer, inner_update_timer
  | outdoor_update_timer, outdoor_update_timer => true
  | _, _ => false
  end.

(** The timer ID and the callback a handle was created with. *)
Fixpoint timer_binding (calls : list call) (h : timer)
  : option (app_job_t * timer_cb) :=
  match calls with
  | [] => None
  | xTimerCreate h' _ _ _ id cb :: rest =>
      if timer_eqb h h' then Some (id, cb) else timer_binding rest h
  | _ :: rest => timer_binding rest h
  end.

(** What runs in the timer context when [h] expires: the callback given
    to [xTimerCreate] is called with the handle, and gets the job back
    with [pvTimerGetTimerID]. *)
Definition on_expiry (pdMS_TO_TICKS : Z -> Z) (h : timer)
    (st : statics) (env : answers) : statics * list call :=
  match timer_binding (app_init pdMS_TO_TICKS) h with
  | Some (id, cb_work_timer) => (st, work_timer_cb id)
  | Some (id, cb_app_timer) => app_timer_cb pdMS_TO_TICKS id st env
  | None => (st, [])
  end.

(** The job each timer is named after. *)
Definition timer_job (h : timer) : app_job_t :=
  match h with
  | time_sync_timer => fn_time_sync
  | wifi_update_timer => fn_wifi_update
  | time_update_timer => fn_time_update
  | inner_update_timer => fn_inner_update
  | outdoor_update_timer => fn_outdoor_update
  end.

(** Rectangles by their corners, as [ui_fill_color] takes them. *)
Definition rect : Type := (Z * Z * Z * Z)%type.

Definition overlap (a b : rect) : bool :=
  let '(ax1, ay1, ax2, ay2) := a in
  let '(bx1, by1, bx2, by2) := b in
  (Z.max ax1 bx1 <=? Z.min ax2 bx2) && (Z.max ay1 by1 <=? Z.min ay2 by2).

(** The rectangles a sequence of rendering calls fills. *)
Definition cleared (ops : list MainPage.ui_call) : list rect :=
  flat_map (fun op => match op with
                      | MainPage.ui_fill_color x1 y1 x2 y2 _ =>
                          [(x1, y1, x2, y2)]
                      | _ => []
                      end) ops.

(** The area the weather icon setter clears before it draws. *)
Definition icon_area : rect := (160, 200, 224, 264).

(** Whether the weather icon is whole after [ops], given whether it was
    before: a fill that touches its area spoils it, drawing it at its
    place restores it. *)
Fixpoint icon_whole (whole : bool) (ops : list MainPage.ui_call) : bool :=
  match ops with
  | [] => whole
  | MainPage.ui_fill_color x1 y1 x2 y2 _ :: rest =>
      icon_whole (whole && negb (overlap (x1, y1, x2, y2) icon_area)) rest
  | MainPage.ui_draw_image x y _ :: rest =>
      icon_whole (if (x =? 160) && (y =? 200) then true else whole) rest
  | MainPage.ui_write_string _ _ _ _ _ _ :: rest => icon_whole whole rest
  end.

(** Successive invocations of [time_update], one per RTC reading. *)
Fixpoint time_updates (last_date : rtc_date_time_t)
    (dates : list rtc_date_time_t) : rtc_date_time_t * list call :=
  match dates with
  | [] => (last_date, [])
  | d :: rest =>
      let '(l1, calls1) := time_update last_date d in
      let '(l2, calls2) := time_updates l1 rest in
      (l2, (calls1 ++ calls2)%list)
  end.

(** The last reading with a year of at least 2020, [init] when there is
    none. *)
Fixpoint latest_valid_date (init : rtc_date_time_t)
    (dates : list rtc_date_time_t) : rtc_date_time_t :=
  match dates with
  | [] => init
  | d :: rest =>
      latest_valid_date (if rtc_year d <? 2020 then init else d) rest
  end.

(** The fields of the page, one per display setter. *)
Inductive page_field : Type :=
| f_wifi_ssid
| f_time
| f_date
| f_inner_temperature
| f_inner_humidity
| f_outdoor_temperature
| f_weather_icon
| f_city.

Definition field_of (c : call) : option page_field :=
  match c with
  | main_page_redraw_wifi_ssid _ => Some f_wifi_ssid
  | main_page_redraw_time _ => Some f_time
  | main_page_redraw_date _ => Some f_date
  | main_page_redraw_inner_temperature _ => Some f_inner_temperature
  | main_page_redraw_inner_humidity _ => Some f_inner_humidity
  | main_page_redraw_outdoor_temperature _ => Some f_outdoor_temperature
  | main_page_redraw_outdoor_weather_icon _ => Some f_weather_icon
  | main_page_redraw_outdoor_city _ => Some f_city
  | _ => None
  end.

(** ** The library model on small inputs *)

Example strstr_first_occurrence : strstr "abcabc" "bc" = Some "bcabc".
Proof. reflexivity. Qed.

Example strstr_null : strstr "abc" "x" = None.
Proof. reflexivity. Qed.

Example sscanf_code_spaced :
  sscanf (qq "'code':   '-12'}") (fmt_quoted_int key_code) = (1, [v_int (-12)]).
Proof. reflexivity. Qed.

Example sscanf_code_not_a_number :
  sscanf (qq "'code':'abc'}") (fmt_quoted_int key_code) = (0, []).
Proof. reflexivity. Qed.

Example sscanf_code_end_of_input :
  sscanf (qq "'code':") (fmt_quoted_int key_code) = (EOF, []).
Proof. reflexivity. Qed.

Example sscanf_text_bounded :
  sscanf (qq "'text':'Thundery outbreaks'") (fmt_quoted key_text 15) =
  (1, [v_str "Thundery outbre"]).
Proof. reflexivity. Qed.

Example sscanf_text_empty :
  sscanf (qq "'text':''") (fmt_quoted key_text 15) = (0, []).
Proof. reflexivity. Qed.

Example atof_28 : atof "28" = S754_finite false 7881299347898368 (-48).
Proof. vm_compute. reflexivity. Qed.

Example atof_tenth_as_float :
  double_to_float (atof "0.1") = S754_finite false 13421773 (-27).
Proof. vm_compute. reflexivity. Qed.

Example atof_signed_exponent :
  option_map Qred (float_value (atof " -1.5e2xyz")) = Some (-150 # 1)%Q.
Proof. vm_compute. reflexivity. Qed.

Example atof_no_conversion : atof "warm" = S754_zero false.
Proof. vm_compute. reflexivity. Qed.

(** ** Facts about [strstr] *)

Lemma prefix_app (n h : string) :
  String.prefix n h = true <-> exists post, h = n ++ post.
Proof.
  revert h; induction n as [|a n IH]; intros h.
  - split; [intros _; exists h; reflexivity | destruct h; reflexivity].
  - destruct h as [|b h]; simpl.
    + split; [discriminate | intros [post H]; discriminate].
    + destruct (ascii_dec a b) as [->|Hab].
      * destruct (IH h) as [I1 I2].
        split; [intros P; destruct (I1 P) as [post H] | intros [post H]].
        -- exists post. now rewrite H.
        -- apply I2. exists post. now inversion H.
      * split; [discriminate | intros [post H]; inversion H; congruence].
Qed.

Lemma strstr_eq (h n : string) :
  strstr h n =
  if String.prefix n h then Some h
  else match h with
       | EmptyString => None
       | String _ t => strstr t n
       end.
Proof. destruct h; reflexivity. Qed.

Lemma strstr_found (h n s : string) :
  strstr h n = Some s ->
  exists pre post, h = pre ++ s /\ s = n ++ post.
Proof.
  induction h as [|c h IH]; rewrite strstr_eq;
    destruct (String.prefix n _) eqn:P.
  - intros [= <-]. apply prefix_app in P as [post P].
    exists "", post. split; [reflexivity | assumption].
  - discriminate.
  - intros [= <-]. apply prefix_app in P as [post P].
    exists "", post. split; [reflexivity | assumption].
  - intros H. destruct (IH H) as (pre & post & H1 & H2).
    exists (String c pre), post.
    split; [simpl; now rewrite <- H1 | assumption].
Qed.

(** The tail [strstr] returns starts at the first occurrence, so every
    occurrence of the needle lies inside it. *)
Lemma strstr_first (h n s pre post : string) :
  strstr h n = Some s -> h = pre ++ n ++ post ->
  exists mid, s = mid ++ n ++ post.
Proof.
  revert pre; induction h as [|c h IH]; intros pre; rewrite strstr_eq;
    destruct (String.prefix n _) eqn:P.
  - intros [= <-] H. exists pre. assumption.
  - discriminate.
  - intros [= <-] H. exists pre. assumption.
  - intros Hs H. destruct pre as [|c' pre].
    + simpl in H. assert (String.prefix n (String c h) = true) as P'
        by (apply prefix_app; exists post; assumption).
      congruence.
    + simpl in H. inversion H; subst.
      apply (IH pre); [assumption | reflexivity].
Qed.

Lemma strstr_occurs (h n : string) :
  occurs n h -> exists s, strstr h n = Some s.
Proof.
  intros (pre & post & H). revert h H.
  induction pre as [|c pre IH]; intros h H; rewrite strstr_eq.
  - assert (String.prefix n h = true) as P
      by (apply prefix_app; exists post; assumption).
    exists h. rewrite P. reflexivity.
  - simpl in H. subst h.
    destruct (String.prefix n _); [eexists; reflexivity|].
    apply IH. reflexivity.
Qed.

Lemma strstr_some_occurs (h n s : string) :
  strstr h n = Some s -> occurs n h.
Proof.
  intros H. destruct (strstr_found _ _ _ H) as (pre & post & H1 & H2).
  exists pre, post. now rewrite <- H2.
Qed.

Lemma occurs_app_l (n pre h : string) : occurs n h -> occurs n (pre ++ h).
Proof.
  intros (a & b & ->). exists (pre ++ a), b.
  induction pre; simpl; [reflexivity | now f_equal].
Qed.

(** The flag returned by the extractor depends on three searches only. *)
Lemma parse_flag (response : string) (info : weather_info_t) :
  fst (parse_seniverse_response response info) =
  match strstr response key_results with
  | None => false
  | Some r =>
      match strstr r key_location, strstr r key_now with
      | Some _, Some _ => true
      | _, _ => false
      end
  end.
Proof.
  unfold parse_seniverse_response.
  destruct (strstr response key_results) as [r|]; [|reflexivity].
  destruct (strstr r key_location) as [l|]; [|reflexivity].
  destruct (strstr r key_now) as [n|]; reflexivity.
Qed.

(** A quoted-string scan returns 1 exactly when it assigned the string. *)
Lemma sscanf_quoted_count (s key : string) (width : nat) :
  (fst (sscanf s (fmt_quoted key width)) =? 1) =
  match stored_str (sscanf s (fmt_quoted key width)) with
  | Some _ => true
  | None => false
  end.
Proof.
  unfold sscanf, fmt_quoted, stored_str; cbn [scan].
  destruct (match_lit key s) as [s1|[|]]; try reflexivity.
  destruct (match_lit (qq "'") (skip_space s1)) as [s2|[|]]; try reflexivity.
  destruct (scan_set_not width [dquote] s2) as [[got s3]|[|]];
    try reflexivity.
  destruct (match_lit (qq "'") s3) as [s4|[|]]; reflexivity.
Qed.

(** Case analysis on what each [sscanf] of the goal assigned. *)
Ltac case_scans :=
  repeat match goal with
    | |- context [stored_str ?x] => destruct (stored_str x)
    | |- context [stored_int ?x] => destruct (stored_int x)
    end.

(** Once the three anchors are found the extractor succeeds, and the
    record it leaves is the old record overwritten field by field with
    whatever was scanned. *)
Lemma parse_merge (response r l n : string) (info : weather_info_t) :
  strstr response key_results = Some r ->
  strstr r key_location = Some l ->
  strstr r key_now = Some n ->
  parse_seniverse_response response info =
  (true,
   {| city := match scanned_str l key_name 31 with
              | Some s => s | None => city info end;
      loaction := match scanned_str l key_path 128 with
                  | Some s => s | None => loaction info end;
      weather := match scanned_str n key_text 15 with
                 | Some s => s | None => weather info end;
      weather_code := match scanned_int n key_code with
                      | Some c => c | None => weather_code info end;
      temperature := match scanned_str n key_temperature 15 with
                     | Some s => double_to_float (atof s)
                     | None => temperature info end |}).
Proof.
  intros Hr Hl Hn. unfold parse_seniverse_response, scanned_str, scanned_int.
  rewrite Hr, Hl, Hn.
  destruct (strstr n key_temperature) as [t|];
    [rewrite sscanf_quoted_count|];
    destruct (strstr l key_name), (strstr l key_path),
      (strstr n key_text), (strstr n key_code);
    case_scans; destruct info; reflexivity.
Qed.

(** Without the results anchor the extractor fails and writes nothing. *)
Lemma no_results_nothing_populated (response : string)
    (info : weather_info_t) :
  strstr response key_results = None ->
  parse_seniverse_response response info = (false, info).
Proof.
  intros H. unfold parse_seniverse_response. rewrite H. reflexivity.
Qed.

(** Without the now anchor the extractor fails after it has written the
    two location fields. *)
Example missing_now_after_location_fields :
  parse_seniverse_response
    (qq "{'results':[{'location':{'name':'Singapore','path':'SG'}}]}")
    weather_zero =
  (false, set_loaction (set_city weather_zero "Singapore") "SG").
Proof. vm_compute. reflexivity. Qed.

(** ** The field extractor *)

(** C3, as stated: two anchors are not enough.  A text holding the
    container anchor and the location anchor is rejected when the now
    anchor is missing, and a text holding the container anchor and the now
    anchor is rejected when the location anchor is missing. *)
Lemma two_anchors_do_not_suffice :
  ~ two_anchors_suffice key_location /\ ~ two_anchors_suffice key_now.
Proof.
  split; intros H.
  - specialize (H (qq "{'results':[{'location':{'name':'Singapore'}}]}")
                  weather_zero).
    assert (false = true) as F; [|discriminate F].
    apply H.
    + exists "{", (qq "[{'location':{'name':'Singapore'}}]}"). reflexivity.
    + exists (qq "{'results':[{"), (qq "{'name':'Singapore'}}]}").
      reflexivity.
  - specialize (H (qq "{'results':[{'now':{'text':'Sunny'}}]}")
                  weather_zero).
    assert (false = true) as F; [|discriminate F].
    apply H.
    + exists "{", (qq "[{'now':{'text':'Sunny'}}]}"). reflexivity.
    + exists (qq "{'results':[{"), (qq "{'text':'Sunny'}}]}"). reflexivity.
Qed.

(** C3, amended: the extractor has three mandatory anchors.  It succeeds
    exactly when the results anchor occurs in the text and both the
    location anchor and the now anchor occur from that anchor onwards;
    no field key takes part in the outcome. *)
Theorem extraction_succeeds_iff_three_anchors
    (response : string) (info : weather_info_t) :
  fst (parse_seniverse_response response info) = true <->
  exists pre rest,
    response = pre ++ key_results ++ rest /\
    occurs key_location (key_results ++ rest) /\
    occurs key_now (key_results ++ rest).
Proof.
  rewrite parse_flag. split.
  - destruct (strstr response key_results) as [r|] eqn:Hr; [|discriminate].
    destruct (strstr r key_location) as [l|] eqn:Hl; [|discriminate].
    destruct (strstr r key_now) as [n|] eqn:Hn; [|discriminate].
    intros _. destruct (strstr_found _ _ _ Hr) as (pre & rest & H1 & H2).
    exists pre, rest. rewrite <- H2.
    split; [assumption|].
    split; eapply strstr_some_occurs; eassumption.
  - intros (pre & rest & H & Hl & Hn).
    destruct (strstr_occurs response key_results) as [r Hr];
      [exists pre, rest; assumption|].
    rewrite Hr.
    destruct (strstr_first _ _ _ _ _ Hr H) as [mid Hmid].
    destruct (strstr_occurs r key_location) as [l' Hl'];
      [rewrite Hmid; apply occurs_app_l; assumption|].
    destruct (strstr_occurs r key_now) as [n' Hn'];
      [rewrite Hmid; apply occurs_app_l; assumption|].
    rewrite Hl', Hn'. reflexivity.
Qed.

(** C6: on the exemplar payload and a zeroed record the extractor
    succeeds with city Singapore, the three-part location path, the
    description Sunny, code 0 and a temperature whose value is 28. *)
Theorem exemplar_payload_extracted :
  let r := parse_seniverse_response payload weather_zero in
  fst r = true /\
  city (snd r) = "Singapore" /\
  loaction (snd r) = "Singapore,Singapore,Singapore" /\
  weather (snd r) = "Sunny" /\
  weather_code (snd r) = 0 /\
  exists t, float_value (temperature (snd r)) = Some t /\ (t == 28)%Q.
Proof.
  repeat split; try (vm_compute; reflexivity).
  eexists. split; [reflexivity | vm_compute; reflexivity].
Qed.

(** C8: with the code key removed the extractor still succeeds, the code
    keeps its zero and the other four fields are filled as before.  In
    general, once the three anchors are found the extractor succeeds
    whatever the field keys are, and a field whose key is absent or whose
    scan assigns nothing keeps the value the record had. *)
Theorem missing_field_is_not_a_failure :
  (let r := parse_seniverse_response payload_without_code weather_zero in
   fst r = true /\
   weather_code (snd r) = 0 /\
   city (snd r) = "Singapore" /\
   loaction (snd r) = "Singapore,Singapore,Singapore" /\
   weather (snd r) = "Sunny" /\
   exists t, float_value (temperature (snd r)) = Some t /\ (t == 28)%Q) /\
  (forall response info r l n,
     strstr response key_results = Some r ->
     strstr r key_location = Some l ->
     strstr r key_now = Some n ->
     let out := parse_seniverse_response response info in
     fst out = true /\
     (scanned_str l key_name 31 = None -> city (snd out) = city info) /\
     (scanned_str l key_path 128 = None ->
      loaction (snd out) = loaction info) /\
     (scanned_str n key_text 15 = None ->
      weather (snd out) = weather info) /\
     (scanned_int n key_code = None ->
      weather_code (snd out) = weather_code info) /\
     (scanned_str n key_temperature 15 = None ->
      temperature (snd out) = temperature info)).
Proof.
  split.
  - repeat split; try (vm_compute; reflexivity).
    eexists. split; [reflexivity | vm_compute; reflexivity].
  - intros response info r l n Hr Hl Hn out. subst out.
    rewrite (parse_merge _ _ _ _ info Hr Hl Hn). simpl.
    repeat split; intros ->; reflexivity.
Qed.

Lemma missing_field_is_not_a_failure_witness :
  fst (parse_seniverse_response payload_without_code weather_zero) = true /\
  weather_code (snd (parse_seniverse_response payload_without_code
                       weather_zero)) = weather_code weather_zero.
Proof.
  destruct missing_field_is_not_a_failure as [_ H].
  edestruct (H payload_without_code weather_zero) as (Hf & _ & _ & _ & Hc & _);
    [reflexivity | reflexivity | reflexivity |].
  split; [exact Hf | apply Hc; reflexivity].
Defined.

(** ** The weather icon *)

Lemma weather_icon_eq (code : Z) :
  MainPage.weather_icon code = Some (icon_by_range code).
Proof.
  destruct code as [|p|p]; try reflexivity.
  do 5 (try (destruct p as [p|p|]; try reflexivity)).
Qed.

(** C7: the weather code selects one of five icons by fixed disjoint
    ranges, 0 to 1 sunny, 4 to 8 cloudy, 9 to 13 rainy, 14 to 17 snowy,
    and every other code selects the unknown icon; the icon is always
    drawn.  Code 2 selects unknown and code 10 selects rainy. *)
Theorem weather_icon_by_ranges :
  (forall code,
     exists icon,
       MainPage.main_page_redraw_outdoor_weather_icon code =
       [MainPage.ui_fill_color 160 200 224 264 (0, 0, 0);
        MainPage.ui_draw_image 160 200 icon] /\
       (icon = MainPage.img_weather_sunny <-> 0 <= code <= 1) /\
       (icon = MainPage.img_weather_cloudy <-> 4 <= code <= 8) /\
       (icon = MainPage.img_weather_rainy <-> 9 <= code <= 13) /\
       (icon = MainPage.img_weather_snowy <-> 14 <= code <= 17) /\
       (icon = MainPage.img_weather_unknown <->
        code < 0 \/ 2 <= code <= 3 \/ 17 < code)) /\
  MainPage.weather_icon 2 = Some MainPage.img_weather_unknown /\
  MainPage.weather_icon 10 = Some MainPage.img_weather_rainy.
Proof.
  split; [|split; reflexivity].
  intros code. exists (icon_by_range code). split.
  - unfold MainPage.main_page_redraw_outdoor_weather_icon.
    rewrite weather_icon_eq. reflexivity.
  - unfold icon_by_range.
    repeat match goal with
      | |- context [?a <=? ?b] => destruct (Z.leb_spec a b)
      end; simpl;
      repeat split; intros; try lia; try discriminate; try reflexivity.
Qed.

(** ** The startup entry point *)

(** C5, on the code: [app_init] starts the five timers, but hands four
    jobs to the work queue; the clock display job is not among them. *)
Theorem app_init_enqueues_four_jobs (pdMS_TO_TICKS : Z -> Z) :
  started (app_init pdMS_TO_TICKS) =
  [time_update_timer; time_sync_timer; wifi_update_timer;
   inner_update_timer; outdoor_update_timer] /\
  enqueued (app_init pdMS_TO_TICKS) =
  [fn_time_sync; fn_wifi_update; fn_inner_update; fn_outdoor_update] /\
  ~ In fn_time_update (enqueued (app_init pdMS_TO_TICKS)).
Proof.
  repeat split. simpl. intuition discriminate.
Qed.

(** ** The time-sync job *)

(** C2: every invocation of [time_sync] reprograms its own timer exactly
    once, as its last call: to 1000 ms when the fetch fails or the year is
    below 2000, and to 3600000 ms otherwise. *)
Theorem time_sync_reprograms_once
    (pdMS_TO_TICKS : Z -> Z) (sntp : option esp_date_time_t) :
  let valid :=
    match sntp with
    | Some esp_date => 2000 <=? esp_year esp_date
    | None => false
    end in
  let reprogram :=
    xTimerChangePeriod time_sync_timer
      (pdMS_TO_TICKS (if valid then 3600000 else 1000)) in
  reprograms (time_sync pdMS_TO_TICKS sntp) = [reprogram] /\
  exists before, time_sync pdMS_TO_TICKS sntp = (before ++ [reprogram])%list.
Proof.
  unfold time_sync. destruct sntp as [d|]; simpl.
  - rewrite Z.leb_antisym. destruct (esp_year d <? 2000); simpl.
    + split; [reflexivity | eexists [_]; reflexivity].
    + split; [reflexivity | eexists [_; _]; reflexivity].
  - split; [reflexivity | eexists [_]; reflexivity].
Qed.

(** ** The comparisons of the change filter *)

Lemma float_bits_eqb_eq (a b : float) :
  float_bits_eqb a b = true <-> a = b.
Proof.
  destruct a as [s1|s1|s1 f1|s1 m1 e1], b as [s2|s2|s2 f2|s2 m2 e2]; simpl;
    try (split; [discriminate | intros H; discriminate H]);
    try (rewrite Bool.eqb_true_iff; split; congruence).
  - rewrite andb_true_iff, Bool.eqb_true_iff, Pos.eqb_eq.
    split; [intros [-> ->]; reflexivity | intros [= -> ->]; auto].
  - rewrite !andb_true_iff, Bool.eqb_true_iff, Pos.eqb_eq, Z.eqb_eq.
    split; [intros [[-> ->] ->]; reflexivity | intros [= -> -> ->]; auto].
Qed.

Lemma memcmp_rtc_eq (a b : rtc_date_time_t) :
  memcmp_rtc a b = true <-> a = b.
Proof.
  unfold memcmp_rtc. rewrite !andb_true_iff, !Z.eqb_eq.
  destruct a, b; simpl. split.
  - intros [[[[[[-> ->] ->] ->] ->] ->] ->]. reflexivity.
  - intros [= -> -> -> -> -> -> ->]. repeat split.
Qed.

Lemma memcmp_weather_eq (a b : weather_info_t) :
  memcmp_weather a b = true <-> a = b.
Proof.
  unfold memcmp_weather.
  rewrite !andb_true_iff, !String.eqb_eq, Z.eqb_eq, float_bits_eqb_eq.
  destruct a, b; simpl. split.
  - intros [[[[-> ->] ->] ->] ->]. reflexivity.
  - intros [= -> -> -> -> ->]. repeat split.
Qed.

Lemma memcmp_wifi_connected (a b : esp_wifi_info_t) :
  memcmp_wifi a b = true -> connected a = connected b.
Proof.
  unfold memcmp_wifi. rewrite !andb_true_iff, Bool.eqb_true_iff. tauto.
Qed.

(** ** The Wi-Fi status job *)

(** C4: after a successful status fetch, an unchanged connected flag
    forwards nothing, whatever else changed; a change from disconnected to
    connected forwards the new network name once; a change from connected
    to disconnected forwards the text wifi lost once. *)
Theorem wifi_forwards_on_transition_only
    (last_info info : esp_wifi_info_t) :
  let calls := snd (wifi_update last_info (Some info)) in
  (connected info = connected last_info -> forwards calls = []) /\
  (connected last_info = false -> connected info = true ->
   forwards calls = [main_page_redraw_wifi_ssid (ssid info)]) /\
  (connected last_info = true -> connected info = false ->
   forwards calls = [main_page_redraw_wifi_ssid "wifi lost"]).
Proof.
  unfold wifi_update.
  destruct (memcmp_wifi info last_info) eqn:M.
  - apply memcmp_wifi_connected in M. simpl.
    repeat split; intros; congruence.
  - destruct (connected last_info), (connected info); simpl;
      repeat split; intros; try reflexivity; discriminate.
Qed.

Lemma wifi_forwards_on_transition_only_witness :
  let home := {| ssid := "home"; bssid := "aa:bb"; channel := 6;
                 rssi := -40; connected := true |} in
  let weak := {| ssid := "home"; bssid := "aa:bb"; channel := 6;
                 rssi := -80; connected := true |} in
  forwards (snd (wifi_update home (Some weak))) = [] /\
  forwards (snd (wifi_update wifi_zero (Some home))) =
  [main_page_redraw_wifi_ssid "home"] /\
  forwards (snd (wifi_update home (Some wifi_zero))) =
  [main_page_redraw_wifi_ssid "wifi lost"].
Proof.
  intros home weak. split; [|split].
  - apply (wifi_forwards_on_transition_only home weak). reflexivity.
  - apply (wifi_forwards_on_transition_only wifi_zero home); reflexivity.
  - apply (wifi_forwards_on_transition_only home wifi_zero); reflexivity.
Defined.

Lemma wifi_update_eq_filter (last_info : esp_wifi_info_t)
    (at_info : option esp_wifi_info_t) :
  wifi_update last_info at_info = wifi_connected_filter last_info at_info.
Proof.
  destruct at_info as [info|]; [|reflexivity].
  unfold wifi_update, wifi_connected_filter.
  destruct (memcmp_wifi info last_info) eqn:M; [|reflexivity].
  apply memcmp_wifi_connected in M. rewrite M.
  rewrite Bool.eqb_reflx. reflexivity.
Qed.

(** C9: [wifi_update] is the filter on the connected flag alone, the
    whole-structure comparison changes nothing; so over any number of
    invocations whose successful fetches report the connectivity of the
    snapshot, the snapshot stays as it was, with its old network name,
    address, channel and signal strength, and nothing is forwarded. *)
Theorem wifi_update_is_connected_filter :
  (forall last_info at_info,
     wifi_update last_info at_info =
     wifi_connected_filter last_info at_info) /\
  (forall last_info at_infos,
     (forall info, In (Some info) at_infos ->
                   connected info = connected last_info) ->
     fst (wifi_updates last_info at_infos) = last_info /\
     forwards (snd (wifi_updates last_info at_infos)) = []).
Proof.
  split; [exact wifi_update_eq_filter|].
  intros last_info at_infos. induction at_infos as [|a rest IH]; intros H.
  - split; reflexivity.
  - simpl. rewrite wifi_update_eq_filter.
    assert (wifi_connected_filter last_info a = (last_info, []) \/
            wifi_connected_filter last_info a =
            (last_info, [printf ("[AT] wifi info get failed" ++ nl)]))
      as [E|E].
    { destruct a as [info|]; [left | right; reflexivity].
      unfold wifi_connected_filter.
      rewrite (H info (or_introl eq_refl)), Bool.eqb_reflx. reflexivity. }
    all: rewrite E; destruct IH as [IH1 IH2];
      [intros info Hin; apply H; right; exact Hin|];
      destruct (wifi_updates last_info rest) as [l2 calls2];
      simpl in *; split; assumption.
Qed.

Lemma wifi_update_is_connected_filter_witness :
  let home := {| ssid := "home"; bssid := "aa:bb"; channel := 6;
                 rssi := -40; connected := true |} in
  let cafe := {| ssid := "cafe"; bssid := "cc:dd"; channel := 11;
                 rssi := -70; connected := true |} in
  fst (wifi_updates home [Some cafe; None; Some cafe]) = home /\
  forwards (snd (wifi_updates home [Some cafe; None; Some cafe])) = [].
Proof.
  intros home cafe.
  apply (proj2 wifi_update_is_connected_filter home).
  intros info [H|[H|[H|[]]]]; inversion H; reflexivity.
Defined.

(** ** The change filter of the clock, indoor and outdoor jobs *)




Example inner_update_nan_again :
  forwards (snd (inner_update (F_nan false QNAN_FLOAT, F_zero false)
                   (aht20_reads (F_nan false QNAN_FLOAT) (F_zero false)))) =
  [main_page_redraw_inner_temperature (F_nan false QNAN_FLOAT);
   main_page_redraw_inner_humidity (F_zero false)].
Proof. reflexivity. Qed.






(** The weather records are compared bit by bit: a NaN temperature with
    the sign bit set is a change from the NaN without it. *)
Example nan_sign_is_a_change :
  let nan := render_payload "Bedok" "Bedok,Singapore" "Haze" "31" "nan" in
  let minus_nan :=
    render_payload "Bedok" "Bedok,Singapore" "Haze" "31" "-nan" in
  forwards
    (snd (outdoor_update (fst (outdoor_update weather_zero (Some nan)))
            (Some minus_nan))) =
  [main_page_redraw_outdoor_temperature (F_nan true QNAN_FLOAT);
   main_page_redraw_outdoor_weather_icon 31].
Proof. reflexivity. Qed.

(** ** The outdoor job and the city setter *)

Lemma app_work_no_city (pdMS_TO_TICKS : Z -> Z) (job : app_job_t)
    (st : statics) (env : answers) (name : string) :
  ~ In (main_page_redraw_outdoor_city name)
       (snd (app_work pdMS_TO_TICKS job st env)).
Proof.
  destruct job; simpl.
  - unfold time_sync. destruct (sntp_time env) as [d|]; simpl;
      [destruct (esp_year d <? 2000); simpl|]; intuition discriminate.
  - unfold wifi_update. destruct (wifi_info env) as [i|]; simpl;
      [destruct (memcmp_wifi i (last_info st)),
         (Bool.eqb (connected (last_info st)) (connected i)),
         (connected i); simpl|]; intuition discriminate.
  - unfold time_update.
    destruct (rtc_year (rtc_time env) <? 2020),
      (memcmp_rtc (rtc_time env) (last_date st)); simpl;
      intuition discriminate.
  - unfold inner_update. destruct (last_inner st) as [lt lh].
    destruct (start_measurement (aht20 env)),
      (wait_for_measurement (aht20 env)),
      (read_measurement (aht20 env)) as [[t h]|]; simpl;
      try (destruct (float_eq t lt && float_eq h lh); simpl);
      intuition discriminate.
  - unfold outdoor_update. destruct (http_get env) as [r|]; simpl;
      [destruct (parse_seniverse_response r weather_zero) as [[|] w];
       [destruct (memcmp_weather (last_weather st) w)|]; simpl|];
      intuition discriminate.
Qed.

(** C10: when the parsed record differs from the snapshot but has the
    snapshot's temperature and weather code, so that only the city, the
    location path or the description changed, the outdoor job forwards
    the temperature and the icon again, with the snapshot's values.  No
    sequence of job invocations, and not the startup entry point, ever
    calls the city setter, although the page module has one that writes
    the city on the screen. *)
Theorem outdoor_forwards_on_undisplayed_change :
  (forall last_weather response w,
     parse_seniverse_response response weather_zero = (true, w) ->
     w <> last_weather ->
     temperature w = temperature last_weather ->
     weather_code w = weather_code last_weather ->
     forwards (snd (outdoor_update last_weather (Some response))) =
     [main_page_redraw_outdoor_temperature (temperature last_weather);
      main_page_redraw_outdoor_weather_icon (weather_code last_weather)]) /\
  (forall pdMS_TO_TICKS st todo name,
     ~ In (main_page_redraw_outdoor_city name)
          (snd (app_works pdMS_TO_TICKS st todo)) /\
     ~ In (main_page_redraw_outdoor_city name) (app_init pdMS_TO_TICKS)) /\
  (forall UI_WIDTH name,
     In (MainPage.ui_write_string 20 250 name
           MainPage.COLOR_TEXT_CYAN MainPage.COLOR_BACKGROUND
           MainPage.font16_maple_bold)
        (MainPage.main_page_redraw_outdoor_city UI_WIDTH name)).
Proof.
  split; [|split].
  - intros last_weather response w Hp Hne Ht Hc.
    unfold outdoor_update. rewrite Hp.
    destruct (memcmp_weather last_weather w) eqn:M.
    + apply memcmp_weather_eq in M. congruence.
    + simpl. rewrite Ht, Hc. reflexivity.
  - intros pd st todo name. split.
    + revert st. induction todo as [|[job env] rest IH]; intros st.
      * simpl. tauto.
      * simpl. pose proof (app_work_no_city pd job st env name) as H1.
        destruct (app_work pd job st env) as [st1 calls1].
        specialize (IH st1).
        destruct (app_works pd st1 rest) as [st2 calls2].
        simpl in *. rewrite in_app_iff. tauto.
    + simpl. intuition discriminate.
  - intros W name. simpl. tauto.
Qed.

Lemma outdoor_forwards_on_undisplayed_change_witness :
  let last_weather := snd (parse_seniverse_response payload weather_zero) in
  let response :=
    qq "{'results':[{'location':{'name':'Bedok','path':'Singapore,Singapore,Singapore'},'now':{'text':'Sunny','code':'0','temperature':'28'}}]}" in
  forwards (snd (outdoor_update last_weather (Some response))) =
  [main_page_redraw_outdoor_temperature (temperature last_weather);
   main_page_redraw_outdoor_weather_icon (weather_code last_weather)].
Proof.
  intros last_weather response.
  apply (proj1 outdoor_forwards_on_undisplayed_change last_weather response
           (snd (parse_seniverse_response response weather_zero))).
  - vm_compute. reflexivity.
  - vm_compute. discriminate.
  - vm_compute. reflexivity.
  - vm_compute. reflexivity.
Defined.

(** ** Further properties of the jobs *)

(** Case analysis on every test a job makes on its way. *)
Ltac job_cases :=
  repeat match goal with
    | |- context [match ?x with _ => _ end] =>
        lazymatch x with
        | context [match _ with _ => _ end] => fail
        | _ => destruct x eqn:?
        end
    end.

(** X1: a job whose fetch fails (no answer, a refused sensor call, an
    implausible year, a response that does not parse) leaves every
    snapshot as it was, calls no display setter and does not write the
    RTC. *)
Theorem fetch_failure_absorbed (pdMS_TO_TICKS : Z -> Z) (job : app_job_t)
    (st : statics) (env : answers) :
  fetch_ok job env = false ->
  fst (app_work pdMS_TO_TICKS job st env) = st /\
  forwards (snd (app_work pdMS_TO_TICKS job st env)) = [] /\
  filter is_rtc_write (snd (app_work pdMS_TO_TICKS job st env)) = [].
Proof.
  destruct st as [li ld [lt lh] lw], job; simpl.
  - unfold time_sync. destruct (sntp_time env) as [d|]; simpl.
    + rewrite Z.leb_antisym, negb_false_iff. intros ->. repeat split.
    + repeat split.
  - unfold wifi_update. destruct (wifi_info env); [discriminate|].
    repeat split.
  - unfold time_update. rewrite Z.leb_antisym, negb_false_iff.
    intros ->. repeat split.
  - unfold inner_update.
    destruct (start_measurement (aht20 env)); [|repeat split].
    destruct (wait_for_measurement (aht20 env)); [|repeat split].
    destruct (read_measurement (aht20 env)); [discriminate|].
    repeat split.
  - unfold outdoor_update. destruct (http_get env) as [r|]; [|repeat split].
    destruct (parse_seniverse_response r weather_zero) as [[|] w]; simpl;
      [discriminate|]. repeat split.
Qed.

Lemma fetch_failure_absorbed_witness :
  fst (app_work (fun ms => ms) fn_outdoor_update statics_zero
         {| sntp_time := None; wifi_info := None; rtc_time := rtc_zero;
            aht20 := {| start_measurement := false;
                        wait_for_measurement := false;
                        read_measurement := None |};
            http_get := Some "{}" |}) = statics_zero.
Proof.
  apply fetch_failure_absorbed. reflexivity.
Defined.

(** X2: a snapshot is written only together with a display call: an
    invocation that changes any static also forwards to the display. *)
Theorem snapshot_change_is_forwarded (pdMS_TO_TICKS : Z -> Z)
    (job : app_job_t) (st : statics) (env : answers) :
  fst (app_work pdMS_TO_TICKS job st env) <> st ->
  forwards (snd (app_work pdMS_TO_TICKS job st env)) <> [].
Proof.
  destruct st as [li ld [lt lh] lw], job; simpl;
    unfold wifi_update, time_update, inner_update, outdoor_update;
    job_cases; simpl; intros H; try (exfalso; apply H; reflexivity);
    discriminate.
Qed.

Lemma snapshot_change_is_forwarded_witness :
  let noon := {| rtc_year := 2024; rtc_month := 5; rtc_day := 17;
                 rtc_hour := 12; rtc_minute := 0; rtc_second := 0;
                 rtc_weekday := 5 |} in
  let env := {| sntp_time := None; wifi_info := None; rtc_time := noon;
                aht20 := aht20_reads (S754_zero false) (S754_zero false);
                http_get := None |} in
  forwards (snd (app_work (fun ms => ms) fn_time_update statics_zero env))
  <> [].
Proof.
  intros noon env. apply snapshot_change_is_forwarded.
  vm_compute. discriminate.
Defined.

(** X3: every display call of a job is a setter of that job's own
    domain: the Wi-Fi job calls the network name setter only, the clock
    job the time and date setters, the indoor job the two indoor setters,
    the outdoor job the outdoor temperature and icon setters, and the
    time-sync job none. *)
Theorem job_calls_own_setters (pdMS_TO_TICKS : Z -> Z) (job : app_job_t)
    (st : statics) (env : answers) (c : call) :
  In c (snd (app_work pdMS_TO_TICKS job st env)) ->
  is_display c = true ->
  setter_job c = Some job.
Proof.
  destruct st as [li ld [lt lh] lw], job; simpl;
    unfold time_sync, wifi_update, time_update, inner_update,
      outdoor_update;
    job_cases; simpl; intros H D;
    repeat (destruct H as [H|H]; [subst c; try discriminate D;
                                  reflexivity|]);
    contradiction.
Qed.

Lemma job_calls_own_setters_witness :
  setter_job (main_page_redraw_outdoor_temperature
                (temperature (snd (parse_seniverse_response payload
                                     weather_zero))))
  = Some fn_outdoor_update.
Proof.
  apply (job_calls_own_setters (fun ms => ms) fn_outdoor_update statics_zero
           {| sntp_time := None; wifi_info := None; rtc_time := rtc_zero;
              aht20 := aht20_reads (S754_zero false) (S754_zero false);
              http_get := Some payload |}).
  - vm_compute. right. left. reflexivity.
  - reflexivity.
Defined.

(** X4: the RTC is written by the time-sync job only, and only with the
    fields of a network time whose year is at least 2000. *)
Theorem rtc_written_with_valid_network_time (pdMS_TO_TICKS : Z -> Z)
    (job : app_job_t) (st : statics) (env : answers)
    (d : rtc_date_time_t) :
  In (rtc_set_time d) (snd (app_work pdMS_TO_TICKS job st env)) ->
  job = fn_time_sync /\
  exists e, sntp_time env = Some e /\ 2000 <= esp_year e /\
            rtc_year d = esp_year e /\ rtc_month d = esp_month e /\
            rtc_day d = esp_day e /\ rtc_hour d = esp_hour e /\
            rtc_minute d = esp_minute e /\ rtc_second d = esp_second e /\
            rtc_weekday d = esp_weekday e.
Proof.
  destruct st as [li ld [lt lh] lw], job; simpl;
    unfold time_sync, wifi_update, time_update, inner_update,
      outdoor_update;
    job_cases; simpl; intros H;
    repeat (destruct H as [H|H]; [try discriminate H|]);
    try contradiction.
  injection H as <-. split; [reflexivity|].
  eexists. split; [reflexivity|]. simpl.
  match goal with E : (_ <? 2000) = false |- _ => apply Z.ltb_ge in E end.
  repeat split; assumption.
Qed.

Lemma rtc_written_with_valid_network_time_witness :
  exists e, Some {| esp_year := 2024; esp_month := 5; esp_day := 17;
                    esp_hour := 12; esp_minute := 0; esp_second := 0;
                    esp_weekday := 5 |} = Some e /\ 2000 <= esp_year e.
Proof.
  destruct (rtc_written_with_valid_network_time (fun ms => ms) fn_time_sync
              statics_zero
              {| sntp_time := Some {| esp_year := 2024; esp_month := 5;
                                      esp_day := 17; esp_hour := 12;
                                      esp_minute := 0; esp_second := 0;
                                      esp_weekday := 5 |};
                 wifi_info := None; rtc_time := rtc_zero;
                 aht20 := aht20_reads (S754_zero false) (S754_zero false);
                 http_get := None |}
              {| rtc_year := 2024; rtc_month := 5; rtc_day := 17;
                 rtc_hour := 12; rtc_minute := 0; rtc_second := 0;
                 rtc_weekday := 5 |})
    as (_ & e & He & Hy & _).
  - simpl. right. left. reflexivity.
  - exists e. split; assumption.
Defined.

Lemma app_work_clock_year (pdMS_TO_TICKS : Z -> Z) (job : app_job_t)
    (st : statics) (env : answers) (d : rtc_date_time_t) :
  In (main_page_redraw_time d) (snd (app_work pdMS_TO_TICKS job st env)) \/
  In (main_page_redraw_date d) (snd (app_work pdMS_TO_TICKS job st env)) ->
  2020 <= rtc_year d.
Proof.
  destruct st as [li ld [lt lh] lw], job; simpl;
    unfold time_sync, wifi_update, time_update, inner_update,
      outdoor_update;
    job_cases; simpl; intros [H|H];
    repeat (destruct H as [H|H]; [try discriminate H|]);
    try contradiction;
    injection H as <-;
    match goal with E : (_ <? 2020) = false |- _ => apply Z.ltb_ge in E end;
    assumption.
Qed.

(** X5: whatever jobs run and whatever the collaborators answer, the time
    and date setters are never called with a year below 2020. *)
Theorem clock_never_shows_before_2020 (pdMS_TO_TICKS : Z -> Z)
    (st : statics) (todo : list (app_job_t * answers))
    (d : rtc_date_time_t) :
  In (main_page_redraw_time d) (snd (app_works pdMS_TO_TICKS st todo)) \/
  In (main_page_redraw_date d) (snd (app_works pdMS_TO_TICKS st todo)) ->
  2020 <= rtc_year d.
Proof.
  revert st. induction todo as [|[job env] rest IH]; intros st; simpl.
  - tauto.
  - pose proof (app_work_clock_year pdMS_TO_TICKS job st env d) as H1.
    destruct (app_work pdMS_TO_TICKS job st env) as [st1 calls1].
    specialize (IH st1).
    destruct (app_works pdMS_TO_TICKS st1 rest) as [st2 calls2].
    simpl in *. rewrite !in_app_iff. tauto.
Qed.

Lemma clock_never_shows_before_2020_witness :
  2020 <= 2024.
Proof.
  apply (clock_never_shows_before_2020 (fun ms => ms) statics_zero
           [(fn_time_update,
             {| sntp_time := None; wifi_info := None;
                rtc_time := {| rtc_year := 2024; rtc_month := 5;
                               rtc_day := 17; rtc_hour := 12;
                               rtc_minute := 0; rtc_second := 0;
                               rtc_weekday := 5 |};
                aht20 := aht20_reads (S754_zero false) (S754_zero false);
                http_get := None |})]
           {| rtc_year := 2024; rtc_month := 5; rtc_day := 17;
              rtc_hour := 12; rtc_minute := 0; rtc_second := 0;
              rtc_weekday := 5 |}).
  left. simpl. left. reflexivity.
Defined.

(** X6: the two plausibility thresholds differ.  A network time with a
    year from 2000 to 2019 is accepted by the time-sync job and written to
    the RTC, and the clock job then shows nothing for that very date. *)
Theorem synced_year_below_2020_is_not_shown (pdMS_TO_TICKS : Z -> Z)
    (e : esp_date_time_t) (last_date : rtc_date_time_t) :
  2000 <= esp_year e < 2020 ->
  let d := {| rtc_year := esp_year e; rtc_month := esp_month e;
              rtc_day := esp_day e; rtc_hour := esp_hour e;
              rtc_minute := esp_minute e; rtc_second := esp_second e;
              rtc_weekday := esp_weekday e |} in
  In (rtc_set_time d) (time_sync pdMS_TO_TICKS (Some e)) /\
  time_update last_date d = (last_date, []).
Proof.
  intros [H1 H2] d. unfold time_sync, time_update. simpl.
  apply Z.ltb_ge in H1. apply Z.ltb_lt in H2. rewrite H1, H2.
  split; [right; left; reflexivity | reflexivity].
Qed.

Lemma synced_year_below_2020_is_not_shown_witness :
  let e := {| esp_year := 2010; esp_month := 1; esp_day := 1;
              esp_hour := 0; esp_minute := 0; esp_second := 0;
              esp_weekday := 5 |} in
  time_update rtc_zero
    {| rtc_year := 2010; rtc_month := 1; rtc_day := 1; rtc_hour := 0;
       rtc_minute := 0; rtc_second := 0; rtc_weekday := 5 |}
  = (rtc_zero, []).
Proof.
  intros e.
  apply (synced_year_below_2020_is_not_shown (fun ms => ms) e rtc_zero).
  simpl. lia.
Defined.

Lemma wifi_update_connected (last_info info : esp_wifi_info_t) :
  connected (fst (wifi_update last_info (Some info))) = connected info.
Proof.
  rewrite wifi_update_eq_filter. unfold wifi_connected_filter.
  destruct (connected last_info) eqn:L, (connected info) eqn:I; simpl;
    congruence.
Qed.

(** X7: over any sequence of invocations the connected flag of the Wi-Fi
    snapshot is the flag of the last successful status fetch, so the
    connectivity on display is never stale (the other fields may be). *)
Theorem wifi_snapshot_tracks_connectivity (last_info : esp_wifi_info_t)
    (at_infos : list (option esp_wifi_info_t)) :
  connected (fst (wifi_updates last_info at_infos)) =
  latest_connected (connected last_info) at_infos.
Proof.
  revert last_info. induction at_infos as [|a rest IH]; intros last_info.
  - reflexivity.
  - assert (latest_connected (connected last_info) (a :: rest) =
            latest_connected (connected (fst (wifi_update last_info a)))
              rest) as ->.
    { destruct a as [info|]; cbn [latest_connected].
      - now rewrite wifi_update_connected.
      - reflexivity. }
    rewrite <- IH. cbn [wifi_updates].
    destruct (wifi_update last_info a) as [l1 calls1]. cbn [fst].
    destruct (wifi_updates l1 rest) as [l2 calls2]. reflexivity.
Qed.

Lemma only_time_sync_reprograms (pdMS_TO_TICKS : Z -> Z) (job : app_job_t)
    (st : statics) (env : answers) :
  job <> fn_time_sync ->
  reprograms (snd (app_work pdMS_TO_TICKS job st env)) = [].
Proof.
  destruct st as [li ld [lt lh] lw], job; simpl; intros H;
    try contradiction;
    unfold wifi_update, time_update, inner_update, outdoor_update;
    job_cases; reflexivity.
Qed.

Lemma time_sync_reprograms_once_aux (pdMS_TO_TICKS : Z -> Z)
    (sntp : option esp_date_time_t) :
  exists ms,
    reprograms (time_sync pdMS_TO_TICKS sntp) =
    [xTimerChangePeriod time_sync_timer (pdMS_TO_TICKS ms)].
Proof.
  unfold time_sync. destruct sntp as [d|]; simpl;
    [destruct (esp_year d <? 2000); simpl|]; eexists; reflexivity.
Qed.

(** X8: every timer [app_init] creates is kept alive.  An auto-reload
    timer is never reprogrammed by its job; the one timer created without
    auto-reload belongs to the job that reprograms that very timer on
    each of its invocations. *)
Theorem one_shot_timer_is_rearmed (pdMS_TO_TICKS : Z -> Z)
    (h : timer) (name : string) (period : Z) (auto_reload : bool)
    (id : app_job_t) (cb : timer_cb) (st : statics) (env : answers) :
  In (xTimerCreate h name period auto_reload id cb)
     (app_init pdMS_TO_TICKS) ->
  if auto_reload
  then reprograms (snd (app_work pdMS_TO_TICKS id st env)) = []
  else exists ms,
      reprograms (snd (app_work pdMS_TO_TICKS id st env)) =
      [xTimerChangePeriod h (pdMS_TO_TICKS ms)].
Proof.
  simpl. intros H.
  repeat (destruct H as [H|H]; [try discriminate H|]); try contradiction;
    injection H as <- <- <- <- <- <-;
    try (apply only_time_sync_reprograms; discriminate).
  destruct (time_sync_reprograms_once_aux pdMS_TO_TICKS (sntp_time env))
    as [ms Hms].
  exists ms. exact Hms.
Qed.

Lemma one_shot_timer_is_rearmed_witness :
  exists ms,
    reprograms (snd (app_work (fun t => t) fn_time_sync statics_zero
                       {| sntp_time := None; wifi_info := None;
                          rtc_time := rtc_zero;
                          aht20 := aht20_reads (S754_zero false)
                                     (S754_zero false);
                          http_get := None |})) =
    [xTimerChangePeriod time_sync_timer ms].
Proof.
  apply (one_shot_timer_is_rearmed (fun t => t) time_sync_timer "time sync"
           200 false fn_time_sync cb_work_timer).
  simpl. right. left. reflexivity.
Defined.

(** X9: in the timer context only the clock job ever runs.  Every
    timer is created with the job it is named after as its ID.  The
    expiry of a timer other than the clock's changes no snapshot and does
    one thing only: it hands that very job to the work queue.  The expiry
    of the clock timer runs the clock job in place, on the clock snapshot
    and the RTC reading.  So what an expiry does depends on no
    collaborator but the RTC: neither the network nor the sensor is
    waited for there. *)
Theorem timer_context_runs_clock_only (pdMS_TO_TICKS : Z -> Z)
    (h : timer) (st : statics) (env env' : answers) :
  rtc_time env = rtc_time env' ->
  on_expiry pdMS_TO_TICKS h st env = on_expiry pdMS_TO_TICKS h st env' /\
  (exists cb, timer_binding (app_init pdMS_TO_TICKS) h
              = Some (timer_job h, cb)) /\
  (h <> time_update_timer ->
   timer_job h <> fn_time_update /\
   on_expiry pdMS_TO_TICKS h st env = (st, [workqueue_run (timer_job h)])) /\
  (h = time_update_timer ->
   on_expiry pdMS_TO_TICKS h st env =
   ({| last_info := last_info st;
       last_date := fst (time_update (last_date st) (rtc_time env));
       last_inner := last_inner st;
       last_weather := last_weather st |},
    snd (time_update (last_date st) (rtc_time env)))).
Proof.
  intros H. split; [|split; [|split]].
  - destruct h; unfold on_expiry; simpl; try reflexivity.
    unfold app_timer_cb. simpl. rewrite H. reflexivity.
  - destruct h; eexists; reflexivity.
  - intros N. destruct h; try (contradiction N; reflexivity);
      (split; [discriminate | reflexivity]).
  - intros ->. unfold on_expiry, app_timer_cb. simpl.
    destruct (time_update (last_date st) (rtc_time env)); reflexivity.
Qed.

Lemma timer_context_runs_clock_only_witness :
  let env := {| sntp_time := None; wifi_info := None; rtc_time := rtc_zero;
                aht20 := aht20_reads (F_zero false) (F_zero false);
                http_get := None |} in
  let env' := {| sntp_time := None; wifi_info := Some wifi_zero;
                 rtc_time := rtc_zero;
                 aht20 := aht20_reads (F_nan false QNAN_FLOAT)
                            (F_zero false);
                 http_get := Some payload |} in
  on_expiry (fun t => t) outdoor_update_timer statics_zero env =
  on_expiry (fun t => t) outdoor_update_timer statics_zero env' /\
  on_expiry (fun t => t) outdoor_update_timer statics_zero env =
  (statics_zero, [workqueue_run fn_outdoor_update]).
Proof.
  intros env env'.
  destruct (timer_context_runs_clock_only (fun t => t) outdoor_update_timer
              statics_zero env env' eq_refl) as (E & _ & W & _).
  split; [exact E|]. apply W. discriminate.
Defined.

(** X10: the jobs [app_init] hands to the work queue are exactly the jobs
    whose timers were created with the work-queue callback. *)
Theorem startup_pass_is_the_deferred_jobs (pdMS_TO_TICKS : Z -> Z)
    (job : app_job_t) :
  In job (enqueued (app_init pdMS_TO_TICKS)) <->
  exists h name period auto_reload,
    In (xTimerCreate h name period auto_reload job cb_work_timer)
       (app_init pdMS_TO_TICKS).
Proof.
  split.
  - destruct job; simpl; intros H;
      repeat (destruct H as [H|H]; [try discriminate H|]);
      try contradiction;
      do 4 eexists; simpl;
      repeat (first [left; reflexivity | right]).
  - intros (h & name & period & r & H). simpl in H.
    repeat (destruct H as [H|H]; [try discriminate H|]);
      try contradiction;
      injection H as <- <- <- <- <-; simpl; tauto.
Qed.

(** ** Further properties of the field extractor *)

Lemma take_not_spec (width : nat) (excluded : list ascii) (s : string) :
  let '(got, rest) := take_not width excluded s in
  s = got ++ rest /\ (String.length got <= width)%nat /\
  forall c, In c (list_ascii_of_string got) -> in_set c excluded = false.
Proof.
  revert s. induction width as [|w IH]; intros s.
  - simpl. repeat split; [lia | intros c []].
  - destruct s as [|a s]; simpl.
    + repeat split; [lia | intros c []].
    + destruct (in_set a excluded) eqn:E.
      * simpl. repeat split; [lia | intros c []].
      * specialize (IH s). destruct (take_not w excluded s) as [got rest].
        destruct IH as (H1 & H2 & H3). simpl.
        repeat split; [now rewrite H1 at 1 | lia |].
        intros c [<-|H]; [assumption | now apply H3].
Qed.

Lemma not_in_quote_set (s : string) :
  (forall c, In c (list_ascii_of_string s) -> in_set c [dquote] = false) ->
  quote_free s = true.
Proof.
  induction s as [|a s IH]; intros H; simpl; [reflexivity|].
  rewrite IH by (intros c Hc; apply H; right; exact Hc).
  specialize (H a (or_introl eq_refl)). simpl in H.
  rewrite orb_false_r in H. rewrite H. reflexivity.
Qed.

(** What a quoted-string scan assigns is not empty, has no double quote
    and is at most as long as the width of the format. *)
Lemma stored_str_bound (s key v : string) (width : nat) :
  stored_str (sscanf s (fmt_quoted key width)) = Some v ->
  (0 < String.length v <= width)%nat /\ quote_free v = true.
Proof.
  unfold sscanf, fmt_quoted, stored_str; cbn [scan].
  destruct (match_lit key s) as [s1|[|]]; try discriminate.
  destruct (match_lit (qq "'") (skip_space s1)) as [s2|[|]];
    try discriminate.
  unfold scan_set_not.
  pose proof (take_not_spec width [dquote] s2) as T.
  destruct s2 as [|a s2]; [discriminate|].
  destruct (take_not width [dquote] (String a s2)) as [[|b got] rest];
    [discriminate|].
  destruct T as (_ & T2 & T3).
  destruct (match_lit (qq "'") rest) as [s4|[|]]; simpl;
    intros [= <-]; (split; [simpl in *; lia | now apply not_in_quote_set]).
Qed.

(** Case analysis on every search and scan of the extractor, keeping
    the outcome of each scan. *)
Ltac parse_cases :=
  unfold parse_seniverse_response;
  repeat match goal with
    | |- context [match strstr ?a ?b with _ => _ end] =>
        destruct (strstr a b)
    | |- context [match stored_str ?x with _ => _ end] =>
        destruct (stored_str x) eqn:?
    | |- context [match stored_int ?x with _ => _ end] =>
        destruct (stored_int x) eqn:?
    | |- context [if ?b then _ else _] => destruct b eqn:?
    end.

Lemma parse_bounded (response : string) (info : weather_info_t) :
  bounded_weather info ->
  bounded_weather (snd (parse_seniverse_response response info)).
Proof.
  intros (B1 & B2 & B3). parse_cases;
    repeat match goal with
      | E : stored_str _ = Some _ |- _ => apply stored_str_bound in E
      end;
    unfold bounded_weather; simpl; intuition lia.
Qed.

(** X11: the extractor never stores more than its formats allow.  If the
    city, the location path and the description of the record hold at
    most 31, 128 and 15 characters before the call, they do so after it,
    whatever the response is and whether the call succeeds or not. *)
Theorem extraction_keeps_bounds (response : string)
    (info : weather_info_t) :
  bounded_weather info ->
  bounded_weather (snd (parse_seniverse_response response info)).
Proof.
  intros B. apply parse_bounded. exact B.
Qed.

Lemma extraction_keeps_bounds_witness :
  bounded_weather (snd (parse_seniverse_response payload weather_zero)).
Proof.
  apply extraction_keeps_bounds. unfold bounded_weather. simpl. lia.
Defined.

(** X12: a failed extraction never touches the description, the code and
    the temperature; it leaves the whole record as it was unless the
    failure is a missing now anchor after the location anchor was found,
    the one case in which city and path may already be written. *)
Theorem failed_extraction_is_partial (response : string)
    (info : weather_info_t) :
  fst (parse_seniverse_response response info) = false ->
  let out := snd (parse_seniverse_response response info) in
  weather out = weather info /\
  weather_code out = weather_code info /\
  temperature out = temperature info /\
  (out = info \/
   exists r l, strstr response key_results = Some r /\
               strstr r key_location = Some l /\
               strstr r key_now = None).
Proof.
  unfold parse_seniverse_response.
  destruct (strstr response key_results) as [r|]; [|simpl; auto].
  destruct (strstr r key_location) as [l|] eqn:L; [|simpl; auto].
  destruct (strstr r key_now) as [n|] eqn:N; [discriminate|].
  intros _. cbv zeta.
  repeat split; try (right; exists r, l; auto);
    destruct (strstr l key_name), (strstr l key_path); case_scans;
    reflexivity.
Qed.

Lemma failed_extraction_is_partial_witness :
  snd (parse_seniverse_response "no anchor at all" weather_zero) =
  weather_zero \/
  exists r l, strstr "no anchor at all" key_results = Some r /\
              strstr r key_location = Some l /\ strstr r key_now = None.
Proof.
  apply (failed_extraction_is_partial "no anchor at all" weather_zero).
  reflexivity.
Defined.

(** X13: extracting the same response a second time, onto the record the
    first extraction left, changes nothing: return value and record are
    those of the first extraction. *)
Theorem extraction_is_idempotent (response : string)
    (info : weather_info_t) :
  parse_seniverse_response response
    (snd (parse_seniverse_response response info)) =
  parse_seniverse_response response info.
Proof.
  parse_cases; reflexivity.
Qed.

(** ** Facts about the integer conversions *)

Lemma digit_cases (d : Z) (P : Z -> Prop) :
  0 <= d < 10 ->
  P 0 -> P 1 -> P 2 -> P 3 -> P 4 -> P 5 -> P 6 -> P 7 -> P 8 -> P 9 ->
  P d.
Proof.
  intros H P0 P1 P2 P3 P4 P5 P6 P7 P8 P9.
  assert (d = 0 \/ d = 1 \/ d = 2 \/ d = 3 \/ d = 4 \/ d = 5 \/ d = 6 \/
          d = 7 \/ d = 8 \/ d = 9) as C by lia.
  repeat (destruct C as [->|C]; [assumption|]). subst d. assumption.
Qed.

Lemma digit_val_char (d : Z) : 0 <= d < 10 -> digit_val (digit_char d) = d.
Proof. intros H. apply (digit_cases d); try assumption; reflexivity. Qed.

Lemma isdigit_char (d : Z) : 0 <= d < 10 -> isdigit (digit_char d) = true.
Proof.
  intros H.
  apply (digit_cases d (fun d => isdigit (digit_char d) = true));
    try assumption; reflexivity.
Qed.

Lemma append_assoc (a b c : string) : (a ++ b) ++ c = a ++ (b ++ c).
Proof. induction a as [|x a IH]; simpl; [reflexivity | now rewrite IH]. Qed.

Lemma utoa_aux_app (fuel : nat) (n : Z) (acc : string) :
  utoa_aux fuel n acc = utoa_aux fuel n EmptyString ++ acc.
Proof.
  revert n acc. induction fuel as [|f IH]; intros n acc; simpl.
  - reflexivity.
  - destruct (n <? 10); [reflexivity|].
    rewrite IH. rewrite (IH _ (String _ EmptyString)).
    rewrite append_assoc. reflexivity.
Qed.

Lemma utoa_aux_digits (fuel : nat) (n : Z) (acc : string) :
  0 <= n -> digits_only acc -> digits_only (utoa_aux fuel n acc).
Proof.
  revert n acc. induction fuel as [|f IH]; intros n acc Hn Ha; simpl.
  - assumption.
  - destruct (n <? 10) eqn:E.
    + apply Z.ltb_lt in E. constructor; [apply isdigit_char; lia | exact Ha].
    + apply IH; [apply Z.div_pos; lia|].
      constructor; [apply isdigit_char; apply Z.mod_pos_bound; lia | exact Ha].
Qed.

Lemma utoa_digits (n : Z) : 0 <= n -> digits_only (utoa n).
Proof. intros H. apply utoa_aux_digits; [assumption | constructor]. Qed.

Lemma utoa_not_empty (n : Z) : utoa n <> EmptyString.
Proof.
  unfold utoa. simpl. destruct (n <? 10); [discriminate|].
  rewrite utoa_aux_app. destruct (utoa_aux _ _ EmptyString); discriminate.
Qed.

(** Reading the digits [%u] printed gives the number back. *)
Lemma decimal_utoa_aux (fuel : nat) (n : Z) (rest : string) :
  0 <= n < 2 ^ Z.of_nat fuel ->
  decimal 0 (utoa_aux fuel n rest) = decimal n rest.
Proof.
  revert n rest. induction fuel as [|f IH]; intros n rest H.
  - simpl in H. assert (n = 0) as -> by lia. reflexivity.
  - cbn [utoa_aux]. destruct (n <? 10) eqn:E.
    + apply Z.ltb_lt in E. cbn [decimal].
      rewrite digit_val_char by lia. f_equal.
    + apply Z.ltb_ge in E. rewrite IH.
      * cbn [decimal]. rewrite digit_val_char
          by (apply Z.mod_pos_bound; lia).
        f_equal. pose proof (Z.div_mod n 10). lia.
      * rewrite Nat2Z.inj_succ, Z.pow_succ_r in H by lia.
        split; [apply Z.div_pos; lia|].
        apply Z.div_lt_upper_bound; lia.
Qed.

Lemma decimal_utoa (n : Z) : 0 <= n -> decimal 0 (utoa n) = n.
Proof.
  intros H. unfold utoa. rewrite decimal_utoa_aux; [reflexivity|].
  split; [assumption|].
  destruct (Z.eq_dec n 0) as [->|N]; [reflexivity|].
  rewrite Nat2Z.inj_succ, Z2Nat.id by apply Z.log2_nonneg.
  apply Z.log2_spec. lia.
Qed.

Lemma take_digits_app (ds rest : string) :
  digits_only ds ->
  match rest with
  | EmptyString => True
  | String c _ => isdigit c = false
  end ->
  take_digits (ds ++ rest) = (ds, rest).
Proof.
  intros H R. induction ds as [|a ds IH]; simpl.
  - destruct rest as [|c rest]; [reflexivity|]. simpl. rewrite R. reflexivity.
  - inversion H as [|? ? Ha Hds]; subst. rewrite Ha, IH by assumption.
    reflexivity.
Qed.

Lemma digit_not_space (c : ascii) : isdigit c = true -> isspace c = false.
Proof.
  unfold isdigit, isspace. intros H.
  apply andb_true_iff in H as [H1 H2].
  apply Z.leb_le in H1. apply Z.leb_le in H2.
  apply orb_false_iff. split.
  - apply Z.eqb_neq. lia.
  - apply andb_false_iff. right. apply Z.leb_gt. lia.
Qed.

Lemma digit_not_sign (c : ascii) :
  isdigit c = true -> Ascii.eqb c "-" = false /\ Ascii.eqb c "+" = false.
Proof.
  intros H. split; apply Ascii.eqb_neq; intros ->; discriminate H.
Qed.

Lemma to_int_strtol (n : Z) :
  INT_MIN <= n <= INT_MAX -> to_int (strtol_value n) = n.
Proof.
  unfold INT_MIN, INT_MAX, to_int, strtol_value, LONG_MIN, LONG_MAX.
  intros H.
  assert (2 ^ 31 = 2147483648) as E31 by reflexivity.
  assert (2 ^ 32 = 4294967296) as E32 by reflexivity.
  assert (2 ^ 63 = 9223372036854775808) as E63 by reflexivity.
  rewrite E31, E63 in *. rewrite E32.
  rewrite Z.min_r, Z.max_r by lia.
  rewrite Z.mod_small by lia. lia.
Qed.

(** [%d] reads back what [%d] printed, for every value of an [int], and
    leaves the text after the digits in place. *)
Lemma scan_int_itoa (n : Z) (rest : string) :
  INT_MIN <= n <= INT_MAX ->
  match rest with
  | EmptyString => True
  | String c _ => isdigit c = false
  end ->
  scan_int (itoa n ++ rest) = inl (n, rest).
Proof.
  intros I R. unfold itoa. destruct (n <? 0) eqn:E.
  - apply Z.ltb_lt in E.
    pose proof (utoa_digits (- n) ltac:(lia)) as D.
    pose proof (utoa_not_empty (- n)) as N.
    unfold scan_int. cbn [append skip_space].
    change (isspace "-") with false. cbv iota. cbn [take_sign].
    change (Ascii.eqb "-" "-") with true. cbv iota.
    rewrite take_digits_app by assumption.
    destruct (utoa (- n)) eqn:U; [contradiction|].
    rewrite <- U, decimal_utoa by lia. rewrite Z.opp_involutive.
    rewrite to_int_strtol by assumption. reflexivity.
  - apply Z.ltb_ge in E.
    pose proof (utoa_digits n E) as D.
    pose proof (utoa_not_empty n) as N.
    unfold scan_int. destruct (utoa n) as [|c t] eqn:U; [contradiction|].
    inversion D as [|? ? Hc Ht]; subst.
    cbn [append skip_space]. rewrite (digit_not_space c Hc).
    cbn [take_sign]. destruct (digit_not_sign c Hc) as [-> ->].
    change (String c (t ++ rest)) with (String c t ++ rest).
    rewrite take_digits_app by assumption.
    rewrite <- U, decimal_utoa by assumption.
    rewrite to_int_strtol by assumption. reflexivity.
Qed.

(** ** Facts about scanning a quoted value *)

Lemma match_lit_app (l s : string) : match_lit l (l ++ s) = inl s.
Proof.
  induction l as [|a l IH]; simpl; [reflexivity|].
  rewrite Ascii.eqb_refl. exact IH.
Qed.

Lemma skip_space_app (ws s : string) :
  all_space ws = true -> skip_space (ws ++ s) = skip_space s.
Proof.
  induction ws as [|a ws IH]; simpl; [reflexivity|].
  intros H. apply andb_true_iff in H as [H1 H2]. rewrite H1. auto.
Qed.

Lemma quote_free_cons (c : ascii) (v : string) :
  quote_free (String c v) = true ->
  Ascii.eqb c dquote = false /\ quote_free v = true.
Proof.
  simpl. intros H. apply andb_true_iff in H as [H1 H2].
  apply negb_true_iff in H1. auto.
Qed.

(** The scan set takes the first [width] characters of a quote-free
    value that ends at a double quote. *)
Lemma take_not_value (width : nat) (v s : string) :
  quote_free v = true ->
  fst (take_not width [dquote] (v ++ String dquote s)) =
  substring 0 width v.
Proof.
  revert v. induction width as [|w IH]; intros v Q.
  - destruct v; reflexivity.
  - destruct v as [|a v].
    + reflexivity.
    + apply quote_free_cons in Q as [Q1 Q2].
      cbn [append take_not in_set existsb]. rewrite Q1. cbn [orb].
      specialize (IH v Q2).
      destruct (take_not w [dquote] (v ++ String dquote s)) as [got rest].
      simpl in *. now rewrite IH.
Qed.

Lemma take_not_value_whole (width : nat) (v s : string) :
  quote_free v = true -> (String.length v <= width)%nat ->
  take_not width [dquote] (v ++ String dquote s) = (v, String dquote s).
Proof.
  revert v. induction width as [|w IH]; intros v Q L.
  - destruct v; [reflexivity | simpl in L; lia].
  - destruct v as [|a v].
    + reflexivity.
    + apply quote_free_cons in Q as [Q1 Q2]. simpl in L.
      cbn [append take_not in_set existsb]. rewrite Q1. cbn [orb].
      rewrite IH by (assumption || lia). reflexivity.
Qed.

(** A field written as its key, optional white space and a quoted value
    is scanned with return value 1, and what is assigned is the first
    [width] characters of the value. *)
Lemma sscanf_quoted_value (key ws v s : string) (width : nat) :
  all_space ws = true -> quote_free v = true -> v <> EmptyString ->
  (0 < width)%nat ->
  sscanf (key ++ ws ++ quoted_then v s) (fmt_quoted key width) =
  (1, [v_str (substring 0 width v)]).
Proof.
  intros W Q N P. unfold sscanf, fmt_quoted. cbn [scan].
  rewrite match_lit_app, skip_space_app by assumption.
  unfold quoted_then. cbn [skip_space].
  change (isspace dquote) with false. cbv iota.
  change (qq "'") with (String dquote EmptyString).
  cbn [match_lit]. rewrite Ascii.eqb_refl.
  unfold scan_set_not.
  pose proof (take_not_value width v s Q) as T.
  destruct v as [|a v]; [contradiction|]. cbn [append].
  change (String a (v ++ String dquote s))
    with (String a v ++ String dquote s).
  destruct (take_not width [dquote] (String a v ++ String dquote s))
    as [got rest].
  simpl in T. subst got.
  destruct width as [|w]; [lia|]. cbn [substring].
  destruct (match match_lit (String dquote EmptyString) rest with
            | inl r => _ | inr f => _ end) eqn:E.
  destruct (match_lit (String dquote EmptyString) rest);
    injection E as <- <-; reflexivity.
Qed.

(** ** Facts about searching a response of the documented shape *)

Lemma prefix_cons (a b : ascii) (n h : string) :
  String.prefix (String a n) (String b h) =
  if Ascii.eqb a b then String.prefix n h else false.
Proof.
  change (String.prefix (String a n) (String b h))
    with (if ascii_dec a b then String.prefix n h else false).
  destruct (ascii_dec a b) as [->|N].
  - now rewrite Ascii.eqb_refl.
  - apply Ascii.eqb_neq in N. now rewrite N.
Qed.

Lemma compatible_prefix (needle lit s : string) :
  compatible needle lit = false -> String.prefix needle (lit ++ s) = false.
Proof.
  revert lit. induction needle as [|a needle IH]; intros lit H.
  - destruct lit; discriminate H.
  - destruct lit as [|b lit]; [discriminate H|].
    cbn [append compatible] in *. rewrite prefix_cons.
    destruct (Ascii.eqb a b); [apply IH; exact H | reflexivity].
Qed.

Lemma strstr_skip_lit (lit s needle : string) :
  clear_of needle lit = true ->
  strstr (lit ++ s) needle = strstr s needle.
Proof.
  induction lit as [|c lit IH]; intros H; [reflexivity|].
  cbn [clear_of] in H. apply andb_true_iff in H as [H1 H2].
  apply negb_true_iff in H1.
  rewrite strstr_eq, (compatible_prefix _ _ s H1). cbn [append].
  apply IH. exact H2.
Qed.

Lemma strstr_here (needle s : string) :
  strstr (needle ++ s) needle = Some (needle ++ s).
Proof.
  rewrite strstr_eq.
  assert (String.prefix needle (needle ++ s) = true) as ->
    by (apply prefix_app; exists s; reflexivity).
  reflexivity.
Qed.

Lemma strstr_skip_quote_free (v s needle : string) :
  quote_free v = true ->
  strstr (v ++ s) (String dquote needle) = strstr s (String dquote needle).
Proof.
  induction v as [|a v IH]; intros Q; [reflexivity|].
  apply quote_free_cons in Q as [Q1 Q2].
  rewrite strstr_eq. cbn [append].
  assert (String.prefix (String dquote needle) (String a (v ++ s)) = false)
    as ->.
  { rewrite prefix_cons, Ascii.eqb_sym, Q1. reflexivity. }
  apply IH. exact Q2.
Qed.

Lemma prefix_quote_free (k v t u : string) :
  quote_free k = true -> quote_free v = true ->
  String.prefix (k ++ String dquote t) (v ++ String dquote u) = true ->
  String.prefix t u = true.
Proof.
  revert v. induction k as [|a k IH]; intros v Qk Qv.
  - destruct v as [|b v]; cbn [append]; rewrite prefix_cons.
    + rewrite Ascii.eqb_refl. auto.
    + apply quote_free_cons in Qv as [Qb _].
      rewrite Ascii.eqb_sym, Qb. discriminate.
  - apply quote_free_cons in Qk as [Qa Qk].
    destruct v as [|b v]; cbn [append]; rewrite prefix_cons.
    + rewrite Qa. discriminate.
    + apply quote_free_cons in Qv as [_ Qv].
      destruct (Ascii.eqb a b); [apply IH; assumption | discriminate].
Qed.

(** A quoted value that is not followed by a colon hides no key anchor:
    the search for the anchor of key [k] goes on at its closing quote. *)
Lemma strstr_skip_value (k v s : string) :
  quote_free k = true -> quote_free v = true ->
  String.prefix ":" s = false ->
  strstr (quoted_then v s) (quoted_then k ":") =
  strstr (String dquote s) (quoted_then k ":").
Proof.
  intros Qk Qv C. unfold quoted_then at 1. rewrite strstr_eq.
  assert (String.prefix (quoted_then k ":")
            (String dquote (v ++ String dquote s)) = false) as ->.
  { unfold quoted_then. rewrite prefix_cons, Ascii.eqb_refl.
    destruct (String.prefix (k ++ String dquote ":")
                (v ++ String dquote s)) eqn:P; [|reflexivity].
    apply prefix_quote_free in P; congruence. }
  unfold quoted_then at 1. apply strstr_skip_quote_free. exact Qv.
Qed.

Lemma digits_quote_free (s : string) : digits_only s -> quote_free s = true.
Proof.
  induction s as [|a s IH]; intros H; [reflexivity|].
  inversion H as [|? ? Ha Hs]; subst. simpl. rewrite IH by assumption.
  destruct (Ascii.eqb_spec a dquote) as [->|]; [discriminate Ha|reflexivity].
Qed.

Lemma itoa_quote_free (n : Z) : quote_free (itoa n) = true.
Proof.
  unfold itoa. destruct (n <? 0) eqn:E.
  - apply Z.ltb_lt in E. simpl. apply digits_quote_free, utoa_digits. lia.
  - apply Z.ltb_ge in E. apply digits_quote_free, utoa_digits. exact E.
Qed.

Lemma field_ok_spec (width : nat) (v : string) :
  field_ok width v = true ->
  v <> EmptyString /\ quote_free v = true /\ (String.length v <= width)%nat.
Proof.
  unfold field_ok. rewrite !andb_true_iff, negb_true_iff, Nat.leb_le.
  intros [[H1 H2] H3]. repeat split; try assumption.
  intros ->. discriminate H1.
Qed.

Lemma substring_whole (width : nat) (v : string) :
  (String.length v <= width)%nat -> substring 0 width v = v.
Proof.
  revert v. induction width as [|w IH]; intros v L.
  - destruct v; [reflexivity | simpl in L; lia].
  - destruct v as [|a v]; [reflexivity|]. simpl in *.
    rewrite IH by lia. reflexivity.
Qed.

Lemma scanned_str_value (sec key v s : string) (width : nat) :
  strstr sec key = Some (key ++ quoted_then v s) ->
  field_ok width v = true ->
  scanned_str sec key width = Some v.
Proof.
  intros H F. apply field_ok_spec in F as (N & Q & L).
  unfold scanned_str. rewrite H.
  assert (0 < width)%nat as P
    by (destruct v; [contradiction | simpl in L; lia]).
  pose proof (sscanf_quoted_value key EmptyString v s width
                eq_refl Q N P) as E.
  change (EmptyString ++ quoted_then v s) with (quoted_then v s) in E.
  rewrite E. unfold stored_str. cbn [snd].
  rewrite substring_whole by assumption. reflexivity.
Qed.

Lemma sscanf_quoted_int (key s : string) (n : Z) :
  INT_MIN <= n <= INT_MAX ->
  sscanf (key ++ quoted_then (itoa n) s) (fmt_quoted_int key) =
  (1, [v_int n]).
Proof.
  intros I. unfold sscanf, fmt_quoted_int. cbn [scan].
  rewrite match_lit_app. unfold quoted_then. cbn [skip_space].
  change (isspace dquote) with false. cbv iota.
  change (qq "'") with (String dquote EmptyString).
  cbn [match_lit]. rewrite Ascii.eqb_refl.
  rewrite scan_int_itoa by (assumption || reflexivity).
  cbn [match_lit]. rewrite Ascii.eqb_refl. reflexivity.
Qed.

(** One step of a search through a response: over a literal piece, or
    over a quoted value. *)
Ltac over_lit l s n :=
  transitivity (strstr s n); [apply (strstr_skip_lit l s n); reflexivity|].

Ltac over_value k v s n :=
  transitivity (strstr (String dquote s) n);
  [apply (strstr_skip_value k v s); [reflexivity | assumption | reflexivity]|].

(** A response of the documented shape is extracted whole. *)
Lemma parse_render_payload (name path text temp : string) (n : Z)
    (info : weather_info_t) :
  field_ok 31 name = true -> field_ok 128 path = true ->
  field_ok 15 text = true -> field_ok 15 temp = true ->
  INT_MIN <= n <= INT_MAX ->
  parse_seniverse_response
    (render_payload name path text (itoa n) temp) info =
  (true,
   {| city := name; loaction := path; weather := text;
      weather_code := n; temperature := double_to_float (atof temp) |}).
Proof.
  intros Fn Fp Ft Fm I.
  destruct (field_ok_spec _ _ Fn) as (_ & Qn & _).
  destruct (field_ok_spec _ _ Fp) as (_ & Qp & _).
  destruct (field_ok_spec _ _ Ft) as (_ & Qt & _).
  pose proof (itoa_quote_free n) as Qc.
  set (t_temp := key_temperature ++ quoted_then temp "}}]}").
  set (s_code := "," ++ t_temp).
  set (t_code := key_code ++ quoted_then (itoa n) s_code).
  set (s_text := "," ++ t_code).
  set (t_text := key_text ++ quoted_then text s_text).
  set (t_now := key_now ++ "{" ++ t_text).
  set (s_path := "}," ++ t_now).
  set (t_path := key_path ++ quoted_then path s_path).
  set (s_name := "," ++ t_path).
  set (t_name := key_name ++ quoted_then name s_name).
  set (t_loc := key_location ++ "{" ++ t_name).
  set (t_res := key_results ++ "[{" ++ t_loc).
  assert (strstr (render_payload name path text (itoa n) temp) key_results
          = Some t_res) as Hr.
  { over_lit "{" t_res key_results. apply strstr_here. }
  assert (strstr t_res key_location = Some t_loc) as Hl.
  { over_lit (key_results ++ "[{") t_loc key_location. apply strstr_here. }
  assert (strstr t_res key_now = Some t_now) as Hn.
  { over_lit (key_results ++ "[{" ++ key_location ++ "{" ++ key_name)
      (quoted_then name s_name) key_now.
    over_value "now" name s_name key_now.
    over_lit (String dquote ("," ++ key_path))
      (quoted_then path s_path) key_now.
    over_value "now" path s_path key_now.
    over_lit (String dquote "},") t_now key_now. apply strstr_here. }
  assert (strstr t_loc key_name = Some t_name) as Hname.
  { over_lit (key_location ++ "{") t_name key_name. apply strstr_here. }
  assert (strstr t_loc key_path = Some t_path) as Hpath.
  { over_lit (key_location ++ "{" ++ key_name)
      (quoted_then name s_name) key_path.
    over_value "path" name s_name key_path.
    over_lit (String dquote ",") t_path key_path. apply strstr_here. }
  assert (strstr t_now key_text = Some t_text) as Htext.
  { over_lit (key_now ++ "{") t_text key_text. apply strstr_here. }
  assert (strstr t_now key_code = Some t_code) as Hcode.
  { over_lit (key_now ++ "{" ++ key_text)
      (quoted_then text s_text) key_code.
    over_value "code" text s_text key_code.
    over_lit (String dquote ",") t_code key_code. apply strstr_here. }
  assert (strstr t_now key_temperature = Some t_temp) as Htemp.
  { over_lit (key_now ++ "{" ++ key_text)
      (quoted_then text s_text) key_temperature.
    over_value "temperature" text s_text key_temperature.
    over_lit (String dquote ("," ++ key_code))
      (quoted_then (itoa n) s_code) key_temperature.
    over_value "temperature" (itoa n) s_code key_temperature.
    over_lit (String dquote ",") t_temp key_temperature. apply strstr_here. }
  rewrite (parse_merge _ t_res t_loc t_now info Hr Hl Hn).
  rewrite (scanned_str_value t_loc key_name name s_name 31 Hname Fn).
  rewrite (scanned_str_value t_loc key_path path s_path 128 Hpath Fp).
  rewrite (scanned_str_value t_now key_text text s_text 15 Htext Ft).
  rewrite (scanned_str_value t_now key_temperature temp "}}]}" 15 Htemp Fm).
  unfold scanned_int. rewrite Hcode. unfold t_code.
  rewrite sscanf_quoted_int by assumption. reflexivity.
Qed.

(** X14: a field written as its key, optional white space and a value
    between double quotes is scanned with return value 1, and the text
    assigned is the value cut to the width of the format: the whole value
    when it fits, its first characters when it is longer. *)
Theorem quoted_field_is_read_back (key ws v s : string) (width : nat) :
  all_space ws = true -> quote_free v = true -> v <> EmptyString ->
  (0 < width)%nat ->
  sscanf (key ++ ws ++ quoted_then v s) (fmt_quoted key width) =
  (1, [v_str (substring 0 width v)]).
Proof.
  intros W Q N P. apply sscanf_quoted_value; assumption.
Qed.

Lemma quoted_field_is_read_back_witness :
  sscanf (key_text ++ "  " ++ quoted_then "Thundery outbreaks" "}")
    (fmt_quoted key_text 15) = (1, [v_str "Thundery outbre"]).
Proof.
  apply (quoted_field_is_read_back key_text "  " "Thundery outbreaks" "}" 15);
    try reflexivity; [discriminate | lia].
Defined.

Lemma field_ok_wider (width width' : nat) (v : string) :
  (width <= width')%nat -> field_ok width v = true ->
  field_ok width' v = true.
Proof.
  unfold field_ok. rewrite !andb_true_iff, !Nat.leb_le.
  intros W [H L]. split; [exact H | lia].
Qed.

(** X15: a response of the documented shape is extracted whole.  When
    city, path, description and temperature text are not empty, hold no
    double quote and have at most 31, 127, 15 and 15 characters (with
    the closing NUL: 32, 128, 16 and 16 bytes), the temperature text does
    not convert to a NaN, and the code is a value of an [int] printed in
    decimal, the extractor succeeds and the record holds exactly these
    texts, that integer and the float converted from the temperature
    text, whatever the record held before. *)
Theorem well_formed_response_is_extracted
    (name path text temp : string) (n : Z) (info : weather_info_t) :
  field_ok 31 name = true -> field_ok 127 path = true ->
  field_ok 15 text = true -> field_ok 15 temp = true ->
  is_nan (atof temp) = false ->
  INT_MIN <= n <= INT_MAX ->
  parse_seniverse_response
    (render_payload name path text (itoa n) temp) info =
  (true,
   {| city := name; loaction := path; weather := text;
      weather_code := n; temperature := double_to_float (atof temp) |}).
Proof.
  intros Fn Fp Ft Fm _ I. apply parse_render_payload; try assumption.
  apply (field_ok_wider 127); [lia | exact Fp].
Qed.

Lemma well_formed_response_is_extracted_witness :
  parse_seniverse_response
    (render_payload "Bedok" "Bedok,Singapore" "Light rain"
       (itoa (-2147483648)) "-0x1A")
    weather_zero =
  (true,
   {| city := "Bedok"; loaction := "Bedok,Singapore";
      weather := "Light rain"; weather_code := -2147483648;
      temperature := F_finite true 13631488 (-19) |}).
Proof.
  apply (well_formed_response_is_extracted "Bedok" "Bedok,Singapore"
           "Light rain" "-0x1A" (-2147483648) weather_zero);
    try reflexivity.
  unfold INT_MIN, INT_MAX. simpl. lia.
Defined.

(** A code beyond the range of [int] is not read back: the digits of
    2147483648 are stored as the least [int], and those of 4294967300
    as 4. *)
Example code_beyond_int_wraps :
  scan_int (itoa 2147483648) = inl (-2147483648, EmptyString) /\
  scan_int (itoa 4294967300) = inl (4, EmptyString).
Proof. split; reflexivity. Qed.

(** X16: from the response text to the screen.  When a well-formed
    response, whose code is a value of an [int] and whose temperature is
    not a NaN, differs from the snapshot, and the text the temperature
    setter formats for the converted temperature fits its buffer of 32
    bytes, the outdoor job stores the record of the response and forwards
    the converted temperature and the code, and the setters called draw
    the icon of the range the code lies in. *)
Theorem well_formed_response_reaches_the_screen
    (UI_WIDTH : Z) (fmt_f1 : float -> string)
    (name path text temp : string) (n : Z) (last_weather : weather_info_t) :
  field_ok 31 name = true -> field_ok 127 path = true ->
  field_ok 15 text = true -> field_ok 15 temp = true ->
  is_nan (atof temp) = false ->
  INT_MIN <= n <= INT_MAX ->
  Page.fits fmt_f1
    (main_page_redraw_outdoor_temperature (double_to_float (atof temp)))
  = true ->
  let w := {| city := name; loaction := path; weather := text;
              weather_code := n;
              temperature := double_to_float (atof temp) |} in
  let out := outdoor_update last_weather
               (Some (render_payload name path text (itoa n) temp)) in
  w <> last_weather ->
  fst out = w /\
  forwards (snd out) =
  [main_page_redraw_outdoor_temperature (double_to_float (atof temp));
   main_page_redraw_outdoor_weather_icon n] /\
  In (MainPage.ui_draw_image 160 200 (icon_by_range n))
     (flat_map (Page.render UI_WIDTH fmt_f1) (forwards (snd out))).
Proof.
  intros Fn Fp Ft Fm _ I _ w out Hne. subst out. unfold outdoor_update.
  rewrite (parse_render_payload name path text temp n weather_zero)
    by first [assumption | apply (field_ok_wider 127); [lia | exact Fp]].
  fold w. destruct (memcmp_weather last_weather w) eqn:M.
  - apply memcmp_weather_eq in M. congruence.
  - cbn [fst snd forwards filter is_display flat_map Page.render].
    unfold MainPage.main_page_redraw_outdoor_weather_icon.
    rewrite weather_icon_eq. repeat split.
    rewrite !in_app_iff. right. left. right. left. reflexivity.
Qed.

Lemma well_formed_response_reaches_the_screen_witness :
  In (MainPage.ui_draw_image 160 200 MainPage.img_weather_rainy)
     (flat_map (Page.render 240 (fun _ => "-2.5"))
        (forwards (snd (outdoor_update weather_zero
           (Some (render_payload "Bedok" "Bedok,Singapore" "Light rain"
                    (itoa 13) "-2.5")))))).
Proof.
  apply (well_formed_response_reaches_the_screen 240 (fun _ => "-2.5")
           "Bedok" "Bedok,Singapore" "Light rain" "-2.5" 13 weather_zero);
    try reflexivity.
  - unfold INT_MIN, INT_MAX. simpl. lia.
  - discriminate.
Defined.

Lemma outdoor_update_bounded (last_weather : weather_info_t)
    (response : option string) :
  bounded_weather last_weather ->
  bounded_weather (fst (outdoor_update last_weather response)).
Proof.
  intros B. unfold outdoor_update. destruct response as [r|]; [|exact B].
  pose proof (parse_bounded r weather_zero) as P.
  destruct (parse_seniverse_response r weather_zero) as [[|] w];
    [|exact B].
  destruct (memcmp_weather last_weather w); [exact B|].
  apply P. unfold bounded_weather. simpl. lia.
Qed.

(** X17: the weather snapshot stays within the widths.  Over any
    sequence of job invocations that starts with a snapshot whose strings
    hold at most 31, 128 and 15 characters, as the zeroed one does, the
    snapshot keeps these bounds. *)
Theorem weather_snapshot_stays_bounded (pdMS_TO_TICKS : Z -> Z)
    (st : statics) (todo : list (app_job_t * answers)) :
  bounded_weather (last_weather st) ->
  bounded_weather (last_weather (fst (app_works pdMS_TO_TICKS st todo))).
Proof.
  revert st. induction todo as [|[job env] rest IH]; intros st B.
  - exact B.
  - cbn [app_works].
    assert (bounded_weather
              (last_weather (fst (app_work pdMS_TO_TICKS job st env))))
      as B1.
    { destruct job; cbn [app_work]; try exact B.
      - destruct (wifi_update _ _); exact B.
      - destruct (time_update _ _); exact B.
      - destruct (inner_update _ _); exact B.
      - pose proof (outdoor_update_bounded (last_weather st)
                      (http_get env) B) as O.
        destruct (outdoor_update _ _); exact O. }
    destruct (app_work pdMS_TO_TICKS job st env) as [st1 calls1].
    specialize (IH st1 B1).
    destruct (app_works pdMS_TO_TICKS st1 rest) as [st2 calls2].
    exact IH.
Qed.

Lemma weather_snapshot_stays_bounded_witness :
  bounded_weather
    (last_weather
       (fst (app_works (fun t => t) statics_zero
               [(fn_outdoor_update,
                 {| sntp_time := None; wifi_info := None;
                    rtc_time := rtc_zero;
                    aht20 := aht20_reads (S754_zero false) (S754_zero false);
                    http_get := Some payload |})]))).
Proof.
  apply weather_snapshot_stays_bounded.
  unfold bounded_weather. simpl. lia.
Defined.

(** ** The sign of a converted temperature *)

Lemma binary_round_aux_opp (m e : Z) (l : location) :
  binary_round_aux 53 1024 true m e l =
  SFopp (binary_round_aux 53 1024 false m e l).
Proof.
  unfold binary_round_aux.
  destruct (shr_fexp 53 1024 m e l) as [mrs e'].
  destruct (shr_fexp 53 1024 _ e' loc_Exact) as [mrs' e''].
  destruct (shr_m mrs'); try reflexivity.
  destruct (e'' <=? 1024 - 53); reflexivity.
Qed.

Lemma with_sign_opp (x : spec_float) :
  with_sign true x = fopp (with_sign false x).
Proof. destruct x; reflexivity. Qed.

Lemma with_sign_SFopp (neg : bool) (x : spec_float) :
  with_sign neg (SFopp x) = with_sign neg x.
Proof. destruct x; reflexivity. Qed.

Lemma decimal_to_double_opp (m e10 : Z) :
  decimal_to_double true m e10 = fopp (decimal_to_double false m e10).
Proof.
  unfold decimal_to_double.
  destruct (m =? 0); [reflexivity|].
  destruct (0 <=? e10).
  - unfold to_double. apply with_sign_opp.
  - destruct (SFdiv_core_binary 53 1024 m 0 (10 ^ (- e10)) 0)
      as [[mq eq] lq].
    rewrite binary_round_aux_opp, with_sign_SFopp. apply with_sign_opp.
Qed.

Lemma binary_to_double_opp (m e2 : Z) :
  binary_to_double true m e2 = fopp (binary_to_double false m e2).
Proof.
  unfold binary_to_double. destruct (m =? 0); [reflexivity|].
  unfold to_double. apply with_sign_opp.
Qed.

Lemma double_to_float_opp (d : double) :
  double_to_float (fopp d) = fopp (double_to_float d).
Proof.
  destruct d as [s|s|s f|s m e]; try reflexivity.
  cbn [fopp double_to_float].
  destruct (binary_normalize 24 128 (Z.pos m) e false), s; reflexivity.
Qed.

(** X18: a minus sign in front of a temperature text that starts with a
    digit negates the float stored, exactly: the conversion of the
    negative text is the conversion of the positive one with the sign
    bit flipped, for a decimal and for a hexadecimal numeral, also when
    it rounds, overflows or underflows. *)
Theorem negative_temperature_is_mirrored (c : ascii) (t : string) :
  isdigit c = true ->
  double_to_float (atof (String "-" (String c t))) =
  fopp (double_to_float (atof (String c t))).
Proof.
  intros Hc. rewrite <- double_to_float_opp. f_equal.
  unfold atof. cbn [skip_space].
  change (isspace "-") with false. cbv iota.
  rewrite (digit_not_space c Hc).
  cbn [take_sign]. change (Ascii.eqb "-" "-") with true. cbv iota.
  destruct (digit_not_sign c Hc) as [-> ->].
  destruct (String.prefix "inf" (lower (String c t))); [reflexivity|].
  destruct (String.prefix "nan" (lower (String c t))); [reflexivity|].
  destruct (hex_float (String c t)) as [[m e2]|];
    [apply binary_to_double_opp|].
  cbn [take_digits]. rewrite Hc.
  destruct (take_digits t) as [ip s2].
  destruct (match s2 with
            | EmptyString => (EmptyString, s2)
            | String c0 t0 =>
                if Ascii.eqb c0 "." then take_digits t0
                else (EmptyString, s2)
            end) as [fp s3].
  cbn [append]. apply decimal_to_double_opp.
Qed.

Lemma negative_temperature_is_mirrored_witness :
  double_to_float (atof "-2.5") = fopp (double_to_float (atof "2.5")) /\
  double_to_float (atof "-0x1A") = fopp (double_to_float (atof "0x1A")).
Proof.
  split.
  - apply (negative_temperature_is_mirrored "2" ".5"). reflexivity.
  - apply (negative_temperature_is_mirrored "0" "x1A"). reflexivity.
Defined.

(** ** The texts of the clock *)

Lemma length_app (a b : string) :
  String.length (a ++ b) = (String.length a + String.length b)%nat.
Proof. induction a; simpl; [reflexivity | now rewrite IHa]. Qed.

Lemma zeros_length (k : nat) : String.length (zeros k) = k.
Proof. induction k; simpl; [reflexivity | now rewrite IHk]. Qed.

Lemma decimal_zeros (k : nat) (s : string) :
  decimal 0 (zeros k ++ s) = decimal 0 s.
Proof. induction k; simpl; [reflexivity | exact IHk]. Qed.

(** A number below [10 ^ k] prints in at most [k] digits. *)
Lemma utoa_aux_length (fuel k : nat) (n : Z) (acc : string) :
  (0 < k)%nat -> 0 <= n < 10 ^ Z.of_nat k ->
  (String.length (utoa_aux fuel n acc) <= k + String.length acc)%nat.
Proof.
  revert k n acc. induction fuel as [|f IH]; intros k n acc K H; simpl.
  - lia.
  - destruct (n <? 10) eqn:E; simpl; [lia|].
    apply Z.ltb_ge in E.
    destruct k as [|[|k]]; [lia | simpl in H; lia |].
    specialize (IH (S k) (n / 10) (String (digit_char (n mod 10)) acc)).
    simpl in IH. 
    assert (0 <= n / 10 < 10 ^ Z.of_nat (S k)) as B.
    { split; [apply Z.div_pos; lia|].
      apply Z.div_lt_upper_bound; [lia|].
      rewrite <- Z.pow_succ_r by lia. rewrite <- Nat2Z.inj_succ. apply H. }
    specialize (IH ltac:(lia) B). lia.
Qed.

Lemma fmt_u_length (width k : nat) (n : Z) :
  (0 < k)%nat -> (width <= k)%nat -> 0 <= n < 10 ^ Z.of_nat k ->
  (width <= String.length (fmt_u width n) <= k)%nat.
Proof.
  intros K W H. unfold fmt_u. rewrite length_app, zeros_length.
  pose proof (utoa_aux_length (S (Z.to_nat (Z.log2 n))) k n EmptyString K H)
    as L.
  fold (utoa n) in L. simpl in L. lia.
Qed.

Lemma decimal_fmt_u (width : nat) (n : Z) :
  0 <= n -> decimal 0 (fmt_u width n) = n.
Proof.
  intros H. unfold fmt_u. rewrite decimal_zeros. apply decimal_utoa. exact H.
Qed.

Lemma two_chars (s : string) :
  String.length s = 2%nat -> exists x y, s = String x (String y EmptyString).
Proof.
  destruct s as [|x [|y [|z s]]]; try discriminate. intros _. eauto.
Qed.

(** X19: for an hour, minute and second below 100 the time text has
    exactly eight characters, two digits for each field with a colon
    between them, and reading the digits at their positions gives hour,
    minute and second back. *)
Theorem time_text_reads_back (t : rtc_date_time_t) :
  0 <= rtc_hour t < 100 -> 0 <= rtc_minute t < 100 ->
  0 <= rtc_second t < 100 ->
  String.length (Page.time_str t) = 8%nat /\
  substring 2 1 (Page.time_str t) = ":" /\
  substring 5 1 (Page.time_str t) = ":" /\
  decimal 0 (substring 0 2 (Page.time_str t)) = rtc_hour t /\
  decimal 0 (substring 3 2 (Page.time_str t)) = rtc_minute t /\
  decimal 0 (substring 6 2 (Page.time_str t)) = rtc_second t.
Proof.
  intros Hh Hm Hs. unfold Page.time_str.
  pose proof (decimal_fmt_u 2 (rtc_hour t) (proj1 Hh)) as Dh.
  pose proof (decimal_fmt_u 2 (rtc_minute t) (proj1 Hm)) as Dm.
  pose proof (decimal_fmt_u 2 (rtc_second t) (proj1 Hs)) as Ds.
  destruct (two_chars (fmt_u 2 (rtc_hour t))) as (h1 & h2 & Eh);
    [pose proof (fmt_u_length 2 2 (rtc_hour t)); simpl in *; lia|].
  destruct (two_chars (fmt_u 2 (rtc_minute t))) as (m1 & m2 & Em);
    [pose proof (fmt_u_length 2 2 (rtc_minute t)); simpl in *; lia|].
  destruct (two_chars (fmt_u 2 (rtc_second t))) as (s1 & s2 & Es);
    [pose proof (fmt_u_length 2 2 (rtc_second t)); simpl in *; lia|].
  rewrite Eh, Em, Es in *. cbn [append String.length substring].
  repeat split; assumption.
Qed.

Lemma time_text_reads_back_witness :
  decimal 0 (substring 3 2
               (Page.time_str {| rtc_year := 2024; rtc_month := 5;
                                 rtc_day := 17; rtc_hour := 9;
                                 rtc_minute := 5; rtc_second := 30;
                                 rtc_weekday := 5 |})) = 5.
Proof.
  apply (time_text_reads_back
           {| rtc_year := 2024; rtc_month := 5; rtc_day := 17;
              rtc_hour := 9; rtc_minute := 5; rtc_second := 30;
              rtc_weekday := 5 |}); simpl; lia.
Defined.

(** X20: the formatted texts fit their buffers.  When hour, minute and
    second are below 256 the time text has at most 11 characters, within
    [time_str[16]]; when the year is below 65536 and month, day and
    weekday are below 256 the date text has at most 22 characters, within
    [date_str[32]]. *)
Theorem clock_texts_fit_their_buffers (t : rtc_date_time_t) :
  0 <= rtc_year t < 65536 -> 0 <= rtc_month t < 256 ->
  0 <= rtc_day t < 256 -> 0 <= rtc_weekday t < 256 ->
  0 <= rtc_hour t < 256 -> 0 <= rtc_minute t < 256 ->
  0 <= rtc_second t < 256 ->
  (String.length (Page.time_str t) <= 11 < 16)%nat /\
  (String.length (Page.date_str t) <= 22 < 32)%nat.
Proof.
  intros Hy Hmo Hd Hw Hh Hmi Hs.
  unfold Page.time_str, Page.date_str. rewrite !length_app.
  assert (forall w n, (w <= 3)%nat -> 0 <= n < 256 ->
                      (String.length (fmt_u w n) <= 3)%nat) as B3.
  { intros w n W H. apply (fmt_u_length w 3 n); simpl; lia. }
  pose proof (B3 2%nat _ ltac:(lia) Hh) as L1.
  pose proof (B3 2%nat _ ltac:(lia) Hmi) as L2.
  pose proof (B3 2%nat _ ltac:(lia) Hs) as L3.
  pose proof (B3 2%nat _ ltac:(lia) Hmo) as L5.
  pose proof (B3 2%nat _ ltac:(lia) Hd) as L6.
  pose proof (B3 0%nat _ ltac:(lia) Hw) as L7.
  assert (String.length (fmt_u 4 (rtc_year t)) <= 5)%nat as L4
    by (apply (fmt_u_length 4 5); simpl; lia).
  change (fmt_u 0 (rtc_weekday t)) with (utoa (rtc_weekday t)) in L7.
  change (String.length ":") with 1%nat.
  change (String.length "-") with 1%nat.
  change (String.length " Week:") with 6%nat.
  lia.
Qed.

Lemma clock_texts_fit_their_buffers_witness :
  (String.length
     (Page.date_str {| rtc_year := 2024; rtc_month := 5; rtc_day := 17;
                       rtc_hour := 9; rtc_minute := 5; rtc_second := 30;
                       rtc_weekday := 5 |}) <= 22 < 32)%nat.
Proof.
  apply (clock_texts_fit_their_buffers
           {| rtc_year := 2024; rtc_month := 5; rtc_day := 17;
              rtc_hour := 9; rtc_minute := 5; rtc_second := 30;
              rtc_weekday := 5 |}); simpl; lia.
Defined.

(** ** The layout of the page *)

Ltac layout_constants :=
  unfold Page.TIME_X, Page.TIME_Y, Page.DATE_X, Page.DATE_Y,
    Page.INNER_TEMP_X, Page.INNER_TEMP_Y, Page.INNER_HUMI_X,
    Page.INNER_HUMI_Y, Page.OUTDOOR_TEMP_X, Page.OUTDOOR_TEMP_Y,
    MainPage.WIFI_SSID_X, MainPage.WIFI_SSID_Y, MainPage.WEATHER_ICON_X,
    MainPage.WEATHER_ICON_Y in *.

Lemma overlap_true (a b : rect) :
  overlap a b = true ->
  let '(ax1, ay1, ax2, ay2) := a in
  let '(bx1, by1, bx2, by2) := b in
  Z.max ax1 bx1 <= Z.min ax2 bx2 /\ Z.max ay1 by1 <= Z.min ay2 by2.
Proof.
  destruct a as [[[ax1 ay1] ax2] ay2], b as [[[bx1 by1] bx2] by2].
  unfold overlap. rewrite andb_true_iff, !Z.leb_le. tauto.
Qed.

(** X21: the setters keep to their own parts of the screen.  The
    rectangles two different setters clear never share a pixel, whatever
    the screen width, with one exception: the area of the weather icon
    reaches into the rows of the outdoor temperature and of the city.  On
    a screen wider than 160 the outdoor temperature setter does clear
    part of the icon area. *)
Theorem setters_clear_their_own_area (UI_WIDTH : Z)
    (fmt_f1 : float -> string) :
  (forall c1 c2 f1 f2 r1 r2,
     field_of c1 = Some f1 -> field_of c2 = Some f2 ->
     In r1 (cleared (Page.render UI_WIDTH fmt_f1 c1)) ->
     In r2 (cleared (Page.render UI_WIDTH fmt_f1 c2)) ->
     overlap r1 r2 = true ->
     f1 = f2 \/
     (f1 = f_weather_icon /\ (f2 = f_outdoor_temperature \/ f2 = f_city)) \/
     (f2 = f_weather_icon /\ (f1 = f_outdoor_temperature \/ f1 = f_city))) /\
  (160 < UI_WIDTH ->
   forall t, exists r,
     In r (cleared (Page.render UI_WIDTH fmt_f1
                      (main_page_redraw_outdoor_temperature t))) /\
     overlap r icon_area = true).
Proof.
  split.
  - intros c1 c2 f1 f2 r1 r2 F1 F2 I1 I2 O.
    destruct c1; try discriminate F1; injection F1 as <-;
      destruct c2; try discriminate F2; injection F2 as <-;
      try (left; reflexivity);
      try (right; left; split; [reflexivity|]; tauto);
      try (right; right; split; [reflexivity|]; tauto);
      exfalso;
      cbn [Page.render] in I1, I2;
      unfold MainPage.main_page_redraw_outdoor_weather_icon in I1, I2;
      try rewrite weather_icon_eq in I1; try rewrite weather_icon_eq in I2;
      simpl in I1, I2;
      destruct I1 as [<-|[]]; destruct I2 as [<-|[]];
      apply overlap_true in O; layout_constants; lia.
  - intros W t. eexists. split; [left; reflexivity|].
    unfold overlap, icon_area.
    rewrite andb_true_iff, !Z.leb_le. unfold Page.OUTDOOR_TEMP_X,
      Page.OUTDOOR_TEMP_Y. lia.
Qed.

Lemma setters_clear_their_own_area_witness :
  exists r,
    In r (cleared (Page.render 240 (fun _ => "?")
                     (main_page_redraw_outdoor_temperature
                        (S754_zero false)))) /\
    overlap r icon_area = true.
Proof.
  apply (proj2 (setters_clear_their_own_area 240 (fun _ => "?"))). lia.
Defined.

Lemma icon_whole_app (whole : bool) (a b : list MainPage.ui_call) :
  icon_whole whole (a ++ b)%list = icon_whole (icon_whole whole a) b.
Proof.
  revert whole. induction a as [|op a IH]; intros whole; [reflexivity|].
  cbn [app].
  destruct op as [x1 y1 x2 y2 c|x y s fg bg f|x y img].
  - cbn [icon_whole]. apply IH.
  - cbn [icon_whole]. apply IH.
  - cbn [icon_whole]. apply IH.
Qed.

Lemma icon_whole_job (UI_WIDTH : Z) (fmt_f1 : float -> string)
    (pdMS_TO_TICKS : Z -> Z) (job : app_job_t) (st : statics)
    (env : answers) :
  icon_whole true
    (flat_map (Page.render UI_WIDTH fmt_f1)
       (snd (app_work pdMS_TO_TICKS job st env))) = true.
Proof.
  destruct st as [li ld [lt lh] lw], job; simpl;
    unfold time_sync, wifi_update, time_update, inner_update,
      outdoor_update;
    job_cases; try reflexivity;
    cbn [snd flat_map Page.render app];
    unfold MainPage.main_page_redraw_outdoor_weather_icon;
    try rewrite weather_icon_eq;
    cbn [icon_whole Page.main_page_redraw_time Page.main_page_redraw_date
         Page.main_page_redraw_inner_temperature
         Page.main_page_redraw_inner_humidity
         Page.main_page_redraw_outdoor_temperature
         MainPage.main_page_redraw_wifi_ssid app];
    try reflexivity;
    unfold overlap, icon_area; layout_constants;
    repeat match goal with
      | |- context [(Z.max ?a ?b <=? Z.min ?c ?d)] =>
          destruct (Z.leb_spec (Z.max a b) (Z.min c d)); try lia
      end;
    reflexivity.
Qed.

(** X22: once drawn, the weather icon is never left partly erased.  Over
    any sequence of job invocations in which every text a setter formats
    fits the buffer of the setter, if the icon was whole before, then
    after the setters the jobs called have run it is whole again: the
    only fill that reaches the icon area is the outdoor temperature's,
    and the outdoor job always redraws the icon after it. *)
Theorem weather_icon_stays_whole (UI_WIDTH : Z) (fmt_f1 : float -> string)
    (pdMS_TO_TICKS : Z -> Z) (st : statics)
    (todo : list (app_job_t * answers)) :
  forallb (Page.fits fmt_f1) (snd (app_works pdMS_TO_TICKS st todo)) = true ->
  icon_whole true
    (flat_map (Page.render UI_WIDTH fmt_f1)
       (snd (app_works pdMS_TO_TICKS st todo))) = true.
Proof.
  intros _. revert st. induction todo as [|[job env] rest IH]; intros st.
  - reflexivity.
  - cbn [app_works].
    pose proof (icon_whole_job UI_WIDTH fmt_f1 pdMS_TO_TICKS job st env)
      as H1.
    destruct (app_work pdMS_TO_TICKS job st env) as [st1 calls1].
    specialize (IH st1).
    destruct (app_works pdMS_TO_TICKS st1 rest) as [st2 calls2].
    cbn [snd] in *. rewrite flat_map_app, icon_whole_app, H1. exact IH.
Qed.

Lemma weather_icon_stays_whole_witness :
  let env := {| sntp_time := None; wifi_info := None; rtc_time := rtc_zero;
                aht20 := aht20_reads (F_finite false 13421773 (-19))
                           (F_zero false);
                http_get := Some payload |} in
  let todo := [(fn_inner_update, env); (fn_outdoor_update, env)] in
  forallb (Page.fits (fun _ => "25.6"))
    (snd (app_works (fun t => t) statics_zero todo)) = true /\
  icon_whole true
    (flat_map (Page.render 240 (fun _ => "25.6"))
       (snd (app_works (fun t => t) statics_zero todo))) = true.
Proof.
  intros env todo.
  assert (forallb (Page.fits (fun _ => "25.6"))
            (snd (app_works (fun t => t) statics_zero todo)) = true) as F
    by (vm_compute; reflexivity).
  split; [exact F|].
  apply (weather_icon_stays_whole 240 (fun _ => "25.6") (fun t => t)
           statics_zero todo F).
Defined.

(** The outdoor temperature setter alone, or the city setter, leaves the
    icon partly erased on a screen 240 wide. *)
Example outdoor_temperature_erases_icon :
  icon_whole true
    (Page.render 240 (fun _ => "0.0")
       (main_page_redraw_outdoor_temperature (S754_zero false))) = false /\
  icon_whole true
    (Page.render 240 (fun _ => "0.0")
       (main_page_redraw_outdoor_city "Singapore")) = false.
Proof. split; reflexivity. Qed.

Lemma time_update_snapshot (last_date d : rtc_date_time_t) :
  fst (time_update last_date d) =
  if rtc_year d <? 2020 then last_date else d.
Proof.
  unfold time_update. destruct (rtc_year d <? 2020); [reflexivity|].
  destruct (memcmp_rtc d last_date) eqn:M; [|reflexivity].
  apply memcmp_rtc_eq in M. subst. reflexivity.
Qed.

(** X23: the clock snapshot is always the latest plausible reading.
    Over any sequence of RTC readings, the snapshot the clock job is left
    with is the last reading whose year is at least 2020, or the
    snapshot it started from when there was none. *)
Theorem clock_snapshot_is_latest_valid_reading
    (last_date : rtc_date_time_t) (dates : list rtc_date_time_t) :
  fst (time_updates last_date dates) = latest_valid_date last_date dates.
Proof.
  revert last_date. induction dates as [|d rest IH]; intros last_date.
  - reflexivity.
  - cbn [time_updates latest_valid_date].
    rewrite <- time_update_snapshot, <- IH.
    destruct (time_update last_date d) as [l1 calls1]. cbn [fst].
    destruct (time_updates l1 rest) as [l2 calls2]. reflexivity.
Qed.
